(** * Publication_product: manuscript extraction and LaTeX rendering

    A shallow embedding of [account/converter.py] (class [LatexConverter])
    and [account/extractors.py] ([extract_docx], [extract_pdf]).

    Text is modelled as [string] (a sequence of 8-bit characters, UTF-8 for
    the one non-ASCII literal of the source, the bullet glyph).  Python's
    Unicode-aware classes ([\s], [\w], [\d], [str.lower], [str.strip]) are
    modelled by their restriction to ASCII, where they coincide with the
    tables below.  On text with other characters (a no-break space, an
    accented letter) the model and the code can differ; the properties
    that depend on the classes carry the hypothesis that the input is
    ASCII text ([ascii_text] and the like, in [Notions]). *)

From Stdlib Require Import Ascii String List QArith Lia DecimalString DecimalNat.
From stdpp Require Import base gmap list strings.

Local Open Scope nat_scope.

(** ** Characters and strings *)

Module Text.

Definition code (c : ascii) : nat := nat_of_ascii c.

Definition between (lo hi : nat) (c : ascii) : bool :=
  (lo <=? code c) && (code c <=? hi).

(** [str.isspace] on ASCII: TAB, LF, VT, FF, CR, FS, GS, RS, US, space. *)
Definition is_space (c : ascii) : bool :=
  between 9 13 c || between 28 32 c.

Definition is_digit (c : ascii) : bool := between 48 57 c.

Definition is_upper (c : ascii) : bool := between 65 90 c.

Definition is_lower (c : ascii) : bool := between 97 122 c.

(** [\w] on ASCII: letters, digits and the underscore. *)
Definition is_word (c : ascii) : bool :=
  is_upper c || is_lower c || is_digit c || (code c =? 95).

Definition lower_char (c : ascii) : ascii :=
  if is_upper c then ascii_of_nat (code c + 32) else c.

Definition upper_char (c : ascii) : ascii :=
  if is_lower c then ascii_of_nat (code c - 32) else c.

Definition is_char (a : ascii) (c : ascii) : bool :=
  bool_decide (a = c).

Fixpoint smap (f : ascii → ascii) (s : string) : string :=
  match s with
  | EmptyString => EmptyString
  | String c s' => String (f c) (smap f s')
  end.

(** [str.lower()] *)
Definition lower (s : string) : string := smap lower_char s.

Definition is_empty (s : string) : bool :=
  match s with EmptyString => true | _ => false end.

(** [str.lstrip()], [str.rstrip()], [str.strip()] without argument. *)
Fixpoint lstrip (s : string) : string :=
  match s with
  | EmptyString => EmptyString
  | String c s' => if is_space c then lstrip s' else s
  end.

Fixpoint rstrip (s : string) : string :=
  match s with
  | EmptyString => EmptyString
  | String c s' =>
      let r := rstrip s' in
      if is_space c && is_empty r then EmptyString else String c r
  end.

Definition strip (s : string) : string := rstrip (lstrip s).

(** [s.startswith(p)] *)
Fixpoint startswith (p s : string) : bool :=
  match p with
  | EmptyString => true
  | String a p' =>
      match s with
      | String b s' => bool_decide (a = b) && startswith p' s'
      | EmptyString => false
      end
  end.

(** [s[:n]] for [0 <= n]. *)
Fixpoint str_take (n : nat) (s : string) : string :=
  match n, s with
  | S n', String c s' => String c (str_take n' s')
  | _, _ => EmptyString
  end.

(** [sep.join(l)] *)
Definition join (sep : string) (l : list string) : string :=
  String.concat sep l.

(** [s.replace(old, new)] for a one-character [old]. *)
Fixpoint replace (old : ascii) (new : string) (s : string) : string :=
  match s with
  | EmptyString => EmptyString
  | String c s' =>
      if bool_decide (c = old) then new +:+ replace old new s'
      else String c (replace old new s')
  end.

(** [f"{n}"] for a non-negative integer. *)
Definition str_of_nat (n : nat) : string :=
  NilEmpty.string_of_uint (Nat.to_uint n).

(** [int(s)] for a string of ASCII digits. *)
Fixpoint int_go (acc : nat) (s : string) : nat :=
  match s with
  | EmptyString => acc
  | String c s' => int_go (10 * acc + (code c - 48)) s'
  end.

Definition int_of (s : string) : nat := int_go 0 s.

Definition nl : string := String (ascii_of_nat 10) EmptyString.

End Text.

(** ** Regular expressions

    The fragment of Python's [re] that the two source files use: literals,
    greedy repetition of a character class, concatenation, alternation and
    capturing groups, matched by backtracking in Python's priority order.
    No pattern of the source can match the empty string inside [re.sub] or
    [re.split], and no group is nested or repeated. *)

Module Re.
Import Text.

Inductive regex : Type :=
| Lit (l : string)
| Rep (p : ascii → bool) (lo : nat) (hi : option nat)
| Cat (a b : regex)
| Alt (a b : regex)
| Grp (a : regex).

(** [x+], [x*], [x?] and a single [x] for a class [x]. *)
Definition plus (p : ascii → bool) : regex := Rep p 1 None.
Definition star (p : ascii → bool) : regex := Rep p 0 None.
Definition opt (p : ascii → bool) : regex := Rep p 0 (Some 1).
Definition one (p : ascii → bool) : regex := Rep p 1 (Some 1).

(** [.] without [re.S]: anything but a newline. *)
Definition dot (c : ascii) : bool := negb (code c =? 10).

Record matched : Type := Matched {
  group0 : string;          (* m.group(0) *)
  groups : list string;     (* m.group(1), m.group(2), ... *)
  rest : string             (* the text after m.end() *)
}.

(** m.group(i) for [1 <= i] *)
Definition group (m : matched) (i : nat) : string :=
  default EmptyString (groups m !! (i - 1)).

Section Matcher.
(** the flag [re.I] *)
Variable icase : bool.

Definition chr_eq (a b : ascii) : bool :=
  if icase then bool_decide (lower_char a = lower_char b)
  else bool_decide (a = b).

Definition cls_ok (p : ascii → bool) (c : ascii) : bool :=
  p c || (icase && (p (lower_char c) || p (upper_char c))).

Fixpoint lit (l s : string) : option string :=
  match l with
  | EmptyString => Some s
  | String a l' =>
      match s with
      | String b s' => if chr_eq a b then lit l' s' else None
      | EmptyString => None
      end
  end.

Definition below (n : nat) (hi : option nat) : bool :=
  match hi with None => true | Some h => n <? h end.

(** Greedy repetition: take as many characters as allowed, then give
    them back one at a time until the continuation succeeds. *)
Fixpoint rep {A} (p : ascii → bool) (lo : nat) (hi : option nat)
    (n : nat) (s : string) (k : string → option A) : option A :=
  let stop := if lo <=? n then k s else None in
  match s with
  | String c s' =>
      if cls_ok p c && below n hi then
        match rep p lo hi (S n) s' k with
        | Some r => Some r
        | None => stop
        end
      else stop
  | EmptyString => stop
  end.

Fixpoint run {A} (r : regex) (s : string) (g : list string)
    (k : string → list string → option A) : option A :=
  match r with
  | Lit l =>
      match lit l s with Some s' => k s' g | None => None end
  | Rep p lo hi => rep p lo hi 0 s (λ s', k s' g)
  | Cat a b => run a s g (λ s' g', run b s' g' k)
  | Alt a b =>
      match run a s g k with
      | Some x => Some x
      | None => run b s g k
      end
  | Grp a =>
      run a s g
        (λ s' g', k s' (g' ++ [str_take (String.length s - String.length s') s]))
  end.

(** [re.match(r, s)] *)
Definition rmatch (r : regex) (s : string) : option matched :=
  run r s []
    (λ s' g, Some (Matched (str_take (String.length s - String.length s') s) g s')).

(** [re.search(r, s)]: the text before the leftmost match, and the match *)
Fixpoint search (r : regex) (s : string) : option (string * matched) :=
  match rmatch r s with
  | Some m => Some (EmptyString, m)
  | None =>
      match s with
      | EmptyString => None
      | String c s' =>
          match search r s' with
          | Some (pre, m) => Some (String c pre, m)
          | None => None
          end
      end
  end.

(** [re.sub(r, repl, s)] for a literal [repl]; [skip] counts the
    characters of the current match that are still to be dropped. *)
Fixpoint sub_go (r : regex) (repl : string) (skip : nat) (s : string)
    : string :=
  match s with
  | EmptyString => EmptyString
  | String c s' =>
      match skip with
      | S k => sub_go r repl k s'
      | 0 =>
          match String.length <$> (group0 <$> rmatch r s) with
          | Some (S k) => repl +:+ sub_go r repl k s'
          | _ => String c (sub_go r repl 0 s')
          end
      end
  end.

Definition sub (r : regex) (repl s : string) : string :=
  sub_go r repl 0 s.

(** [re.split(r, s)] for a pattern without groups: the head of the
    result is the piece being read. *)
Fixpoint split_go (r : regex) (skip : nat) (s : string) : list string :=
  match s with
  | EmptyString => [EmptyString]
  | String c s' =>
      match skip with
      | S k => split_go r k s'
      | 0 =>
          match String.length <$> (group0 <$> rmatch r s) with
          | Some (S k) => EmptyString :: split_go r k s'
          | _ =>
              match split_go r 0 s' with
              | p :: ps => String c p :: ps
              | [] => [String c EmptyString]
              end
          end
      end
  end.

Definition split (r : regex) (s : string) : list string :=
  split_go r 0 s.

End Matcher.

End Re.

(** ** The structured document model (the dictionaries both extractors
    return and the renderer consumes) *)

Record author : Type := Author {
  name : string;
  role : string;
  affiliation : string;
  email : string
}.

Record reference : Type := Reference {
  ref_id : string;
  citation : string
}.

(** ** The renderer: [LatexConverter] *)

Module LatexConverter.
Import Text.

Definition bs : ascii := ascii_of_nat 92.

(** [clean_latex_text]: ten successive [str.replace] calls. *)
Definition clean_latex_text (text : string) : string :=
  let text := replace "&" "\&" text in
  let text := replace "%" "\%" text in
  let text := replace "$" "\$" text in
  let text := replace "#" "\#" text in
  let text := replace "_" "\_" text in
  let text := replace "{" "\{" text in
  let text := replace "}" "\}" text in
  let text := replace "~" "\textasciitilde" text in
  let text := replace "^" "\textasciicircum" text in
  let text := replace bs "\textbackslash" text in
  text.

(** The loop of [format_references]: [unique_refs] and [seen]. *)
Definition unique_step (st : list reference * gset string) (r : reference)
    : list reference * gset string :=
  let citation := citation r in
  if decide (citation ∉ st.2) then (st.1 ++ [r], {[citation]} ∪ st.2)
  else st.

Definition unique_refs (refs : list reference) : list reference :=
  (foldl unique_step ([], ∅) refs).1.

Definition bibitem (r : reference) : string :=
  "\bibitem{ref" +:+ ref_id r +:+ "} " +:+ clean_latex_text (citation r).

Definition format_references (refs : list reference) : string :=
  match refs with
  | [] => ""
  | _ => join nl (bibitem <$> unique_refs refs)
  end.

End LatexConverter.


(** A table: [label], [header], [rows].  A cell is a string; the
    paginated reader may also hand out [None] for a missing cell. *)
Record table : Type := Table {
  label : string;
  header : list (option string);
  rows : list (list (option string))
}.

(** Content nodes, discriminated in the source by the ["type"] entry:
    "paragraph", "figure", "list", "table", "subsection", "section". *)
Inductive node : Type :=
| Paragraph (text : string)
| Figure (label caption content : string)
| ListNode (items : list string)
| TableNode (t : table)
| Subsection (heading : string) (content : list node)
| Section (heading : string) (content : list node).

(** What [metadata["figures"]] holds: the [image_info] dictionaries of the
    styled extractor, the figure dictionaries of the paginated one. *)
Inductive figure_entry : Type :=
| ImageInfo (id filename caption path : string)
| FigureDict (label caption content : string).

Record Metadata : Type := MkMetadata {
  title : string;
  authors : list author;
  abstract : string;
  keywords : list string;
  figures : list figure_entry
}.

Record Content : Type := MkContent {
  metadata : Metadata;
  body : list node;
  references : list reference;
  tables : list table
}.

(** ** The environment of an extraction: the image directory

    [writable path] tells whether writing the file [path] succeeds.  What an
    extraction leaves behind is the list of files written (path and the
    bytes they were made from) and the lines printed. *)

Inductive printed : Type :=
| ErrorSavingImage (index : nat).

Record effects : Type := Effects {
  files : list (string * string);
  log : list printed
}.

Definition media_dir : string := "extracted_images".

(** [os.path.join(media_dir, filename)] for a relative [filename] *)
Definition path_join (dir filename : string) : string :=
  dir +:+ "/" +:+ filename.

(** ** The styled-document extractor: [extract_docx] *)

Module Docx.
Import Text Re.

(** *** Input: what [python-docx] hands out *)

Record paragraph : Type := Para {
  text : string;            (* para.text *)
  style_name : string       (* para.style.name *)
}.

(** An image part: its bytes, and what [Image.open] makes of them:
    [None] when it raises, otherwise [img.format]. *)
Record image_part : Type := ImagePart {
  blob : string;
  pil_format : option (option string)
}.

(** A relationship of [doc.part.rels] whose target is a part of the
    package (target mode internal), for which [rel.target_part] is
    defined.  A relationship to a linked, external image, on which
    [rel.target_part] raises, is not part of the model: the documents of
    the model are those whose image relationships are internal. *)
Record relationship : Type := Rel {
  reltype : string;
  target_part : image_part
}.

(** [docx.opc.constants.RELATIONSHIP_TYPE.IMAGE] *)
Definition RT_IMAGE : string :=
  "http://schemas.openxmlformats.org/officeDocument/2006/relationships/image".

Record document : Type := Document {
  doc_paragraphs : list paragraph;          (* doc.paragraphs *)
  doc_tables : list (list (list string));   (* doc.tables: rows of cell texts *)
  doc_rels : list relationship              (* doc.part.rels.values() *)
}.

(** *** The nested helpers *)

Definition is_heading (para : paragraph) : bool :=
  startswith "heading" (lower (style_name para)).

(** [heading\s*(\d+)] *)
Definition re_heading : regex :=
  Cat (Lit "heading") (Cat (star is_space) (Grp (plus is_digit))).

Definition get_heading_level (para : paragraph) : nat :=
  match rmatch false re_heading (lower (style_name para)) with
  | Some m => int_of (group m 1)
  | None => 1
  end.

Definition clean_text (text : string) : string :=
  strip (sub false (plus is_space) " " text).

(** [save_image]: the image information on success; on any exception a
    line is printed and [None] returned. *)
Definition save_image (writable : string → bool) (image_part : image_part)
    (index : nat) (caption : option string) (eff : effects)
    : option figure_entry * effects :=
  match pil_format image_part with
  | Some format =>
      let ext :=
        match format with
        | Some (String c f) => lower (String c f)
        | _ => "png"
        end in
      let filename := "figure_" +:+ str_of_nat index +:+ "." +:+ ext in
      let path := path_join media_dir filename in
      if writable path then
        let caption :=
          match caption with
          | Some (String c s) => String c s
          | _ => "Figure " +:+ str_of_nat index
          end in
        (Some (ImageInfo ("fig_" +:+ str_of_nat index) filename caption path),
         Effects (files eff ++ [(path, blob image_part)]) (log eff))
      else (None, Effects (files eff) (log eff ++ [ErrorSavingImage index]))
  | None => (None, Effects (files eff) (log eff ++ [ErrorSavingImage index]))
  end.

(** *** Title and author block *)

Fixpoint skip_blank (paras : list paragraph) : list paragraph :=
  match paras with
  | [] => []
  | p :: paras' =>
      if is_empty (strip (text p)) then skip_blank paras' else paras
  end.

(** [re.match(r'abstract', text, re.I)] *)
Definition is_abstract (text : string) : bool :=
  bool_decide (is_Some (rmatch true (Lit "abstract") text)).

(** The author-block loop: the lines collected, and the paragraphs from
    the cursor on when the loop is left. *)
Fixpoint author_block (paras : list paragraph)
    : list string * list paragraph :=
  match paras with
  | [] => ([], [])
  | p :: paras' =>
      let text := clean_text (text p) in
      if is_empty text then author_block paras'
      else if is_abstract text || is_heading p then ([], paras)
      else
        let '(block, remaining) := author_block paras' in
        (text :: block, remaining)
  end.

(** [[\w\.-]+@[\w\.-]+\.\w+] *)
Definition email_chr (c : ascii) : bool :=
  is_word c || is_char "." c || is_char "-" c.

Definition re_email : regex :=
  Cat (plus email_chr)
    (Cat (Lit "@") (Cat (plus email_chr) (Cat (Lit ".") (plus is_word)))).

(** [,|;] *)
Definition re_comma_semi : regex := Alt (Lit ",") (Lit ";").

Definition author_clean (author_line : string) : string :=
  strip (sub false re_email "" author_line).

Definition author_parts (author_line : string) : list string :=
  strip <$> split false re_comma_semi (author_clean author_line).

(** The body of the loop over [author_block]. *)
Definition parse_author (author_line : string) : author :=
  let email :=
    match search false re_email author_line with
    | Some (_, m) => group0 m
    | None => ""
    end in
  let parts := author_parts author_line in
  if 2 <=? length parts then
    let name := default "" (parts !! 0) in
    let role := if 2 <? length parts then default "" (parts !! 1) else "" in
    let affiliation :=
      if 2 <? length parts then join ", " (drop 2 parts)
      else default "" (parts !! 1) in
    Author name role affiliation email
  else
    Author (author_clean author_line) "" "" email.

(** *** Abstract and keywords *)

Record ak_state : Type := AkState {
  in_abstract : bool;
  in_keywords : bool;
  abstract_lines : list string;
  ak_abstract : string;       (* content["metadata"]["abstract"] *)
  ak_keywords : list string   (* keywords *)
}.

(** How one turn of a [while] loop ends: [i += 1] and on, [continue]
    with the cursor where it is, or [break]. *)
Inductive ctl : Type := Next | Again | Stop.

(** [(keywords|key terms|index terms)\s*[:.]?] *)
Definition re_keywords : regex :=
  Cat (Grp (Alt (Lit "keywords") (Alt (Lit "key terms") (Lit "index terms"))))
    (Cat (star is_space) (opt (λ c, is_char ":" c || is_char "." c))).

(** [[,;]] *)
Definition re_kw_sep : regex :=
  one (λ c, is_char "," c || is_char ";" c).

Definition split_keywords (text : string) : list string :=
  filter (λ kw, kw ≠ "") (strip <$> split false re_kw_sep text).

(** One turn of the abstract/keywords loop at paragraph [p]. *)
Definition ak_iter (st : ak_state) (p : paragraph) : ak_state * ctl :=
  let text := clean_text (text p) in
  if is_empty text then (st, Next)
  else if is_abstract text then
    (AkState true (in_keywords st) (abstract_lines st) (ak_abstract st)
       (ak_keywords st), Next)
  else if in_abstract st
          && bool_decide (is_Some (rmatch true re_keywords text)) then
    (AkState false true (abstract_lines st) (join " " (abstract_lines st))
       (ak_keywords st), Next)
  else if in_abstract st then
    if is_heading p then
      (AkState false (in_keywords st) (abstract_lines st)
         (join " " (abstract_lines st)) (ak_keywords st), Again)
    else
      (AkState true (in_keywords st) (abstract_lines st ++ [text])
         (ak_abstract st) (ak_keywords st), Next)
  else if in_keywords st then
    if is_heading p then
      (AkState (in_abstract st) false (abstract_lines st) (ak_abstract st)
         (ak_keywords st), Again)
    else
      (AkState (in_abstract st) true (abstract_lines st) (ak_abstract st)
         (ak_keywords st ++ split_keywords text), Next)
  else (st, Stop).

(** The turns taken at one paragraph.  A turn that ends in [continue]
    without moving the cursor clears one of the two flags, so no more than
    two such turns follow each other ([ak_again_bounded] below) and the
    budget of [ak_at] is never used up. *)
Fixpoint ak_at (budget : nat) (st : ak_state) (p : paragraph)
    : ak_state * bool :=
  match ak_iter st p with
  | (st', Next) => (st', true)
  | (st', Stop) => (st', false)
  | (st', Again) =>
      match budget with
      | S budget' => ak_at budget' st' p
      | 0 => (st', false)
      end
  end.

Fixpoint ak_loop (st : ak_state) (paras : list paragraph)
    : ak_state * list paragraph :=
  match paras with
  | [] => (st, [])
  | p :: paras' =>
      match ak_at 2 st p with
      | (st', true) => ak_loop st' paras'
      | (st', false) => (st', paras)
      end
  end.

(** *** The body pass

    A section or subsection dictionary is reached from several places at
    once: [current_section], [current_subsection], the ["content"] list of
    the section a subsection was appended to, and [content["body"]].  The
    dictionaries therefore live in a store and are named by their address;
    a paragraph, figure, list or table dictionary is only ever reached
    through the ["content"] list that holds it and is kept there as a
    value. *)

Inductive kind : Type := KSection | KSubsection.

Inductive item : Type :=
| Leaf (n : node)
| Ref (l : nat).

Record obj : Type := Obj {
  okind : kind;               (* "type" *)
  oheading : string;          (* "heading" *)
  ocontent : list item        (* "content" *)
}.

Definition alloc (o : obj) (h : list obj) : list obj * nat :=
  (h ++ [o], length h).

(** [d["content"].append(it)] for the dictionary at address [l] *)
Definition push (it : item) (o : obj) : obj :=
  Obj (okind o) (oheading o) (ocontent o ++ [it]).

Definition append_to (l : nat) (it : item) (h : list obj) : list obj :=
  alter (push it) l h.

Record body_state : Type := BodyState {
  st_store : list obj;
  st_body : list nat;                   (* content["body"] *)
  current_section : option nat;
  current_subsection : option nat;
  fig_count : nat;
  st_figures : list figure_entry;       (* content["metadata"]["figures"] *)
  st_eff : effects
}.

(** [(?:figure|fig)[\s\.]*(\d+)[\s:\.-]+] followed by a second group,
    any run of characters other than a newline *)
Definition re_figure : regex :=
  Cat (Alt (Lit "figure") (Lit "fig"))
    (Cat (star (λ c, is_space c || is_char "." c))
       (Cat (Grp (plus is_digit))
          (Cat (plus (λ c, is_space c || is_char ":" c || is_char "." c
                           || is_char "-" c))
             (Grp (star dot))))).

(** A level-1 heading. *)
Definition open_section (text : string) (st : body_state) : body_state :=
  let body :=
    match current_section st with
    | Some l => st_body st ++ [l]
    | None => st_body st
    end in
  let '(h, l) := alloc (Obj KSection text []) (st_store st) in
  BodyState h body (Some l) None (fig_count st) (st_figures st) (st_eff st).

(** A level-2 heading. *)
Definition open_subsection (text : string) (st : body_state) : body_state :=
  match current_section st with
  | Some ls =>
      let '(h, l) := alloc (Obj KSubsection text []) (st_store st) in
      BodyState (append_to ls (Ref l) h) (st_body st) (Some ls) (Some l)
        (fig_count st) (st_figures st) (st_eff st)
  | None =>
      let '(h, l) := alloc (Obj KSubsection text []) (st_store st) in
      let '(h, ls) := alloc (Obj KSection "Untitled Section" [Ref l]) h in
      BodyState h (st_body st) (Some ls) (Some l)
        (fig_count st) (st_figures st) (st_eff st)
  end.

(** The first relationship of type image, if any: the [for ... break]
    over [doc.part.rels.values()]. *)
Definition first_image (rels : list relationship) : option relationship :=
  List.find (λ rel, bool_decide (reltype rel = RT_IMAGE)) rels.

(** A paragraph that matches [re_figure]. *)
Definition figure_paragraph (writable : string → bool)
    (rels : list relationship) (m : matched) (st : body_state)
    : body_state :=
  let fig_num := group m 1 in
  let caption := strip (group m 2) in
  let '(image_info, eff) :=
    match first_image rels with
    | Some rel =>
        save_image writable (target_part rel) (fig_count st)
          (Some ("Figure " +:+ fig_num +:+ ": " +:+ caption)) (st_eff st)
    | None => (None, st_eff st)
    end in
  match image_info with
  | Some (ImageInfo id filename cap path as info) =>
      let fig_item := Leaf (Figure ("Fig" +:+ fig_num) caption path) in
      let h :=
        match current_subsection st, current_section st with
        | Some l, _ => append_to l fig_item (st_store st)
        | None, Some l => append_to l fig_item (st_store st)
        | None, None => st_store st
        end in
      BodyState h (st_body st) (current_section st) (current_subsection st)
        (fig_count st + 1) (st_figures st ++ [info]) eff
  | _ =>
      BodyState (st_store st) (st_body st) (current_section st)
        (current_subsection st) (fig_count st) (st_figures st) eff
  end.

Definition bullet : string := "•".

(** [text.lstrip('•-* ')] *)
Fixpoint lstrip_bullets (s : string) : string :=
  match s with
  | String c s' =>
      if is_char "-" c || is_char "*" c || is_char " " c
      then lstrip_bullets s'
      else
        match s' with
        | String c1 (String c2 s'') =>
            if bool_decide (String c (String c1 (String c2 "")) = bullet)
            then lstrip_bullets s'' else s
        | _ => s
        end
  | EmptyString => EmptyString
  end.

Definition is_list_paragraph (para : paragraph) (text : string) : bool :=
  startswith "list" (lower (style_name para))
  || startswith bullet text || startswith "-" text || startswith "*" text.

(** Extend the list that ends [content], or start a new one. *)
Definition add_list_item (x : string) (content : list item) : list item :=
  match last content with
  | Some (Leaf (ListNode items)) =>
      removelast content ++ [Leaf (ListNode (items ++ [x]))]
  | _ => content ++ [Leaf (ListNode [x])]
  end.

(** Any other paragraph: pick the container, then append to it. *)
Definition plain_paragraph (para : paragraph) (text : string)
    (st : body_state) : body_state :=
  let '(h, section, container) :=
    match current_subsection st, current_section st with
    | Some l, cs => (st_store st, cs, l)
    | None, Some l => (st_store st, Some l, l)
    | None, None =>
        let '(h, l) := alloc (Obj KSection "Introduction" []) (st_store st) in
        (h, Some l, l)
    end in
  let h :=
    if is_list_paragraph para text then
      alter (λ o, Obj (okind o) (oheading o)
                    (add_list_item (strip (lstrip_bullets text)) (ocontent o)))
        container h
    else append_to container (Leaf (Paragraph text)) h in
  BodyState h (st_body st) section (current_subsection st)
    (fig_count st) (st_figures st) (st_eff st).

(** One turn of the body loop; every turn moves the cursor. *)
Definition body_iter (writable : string → bool) (rels : list relationship)
    (st : body_state) (para : paragraph) : body_state :=
  let text := clean_text (text para) in
  if is_empty text then st
  else if is_heading para then
    let level := get_heading_level para in
    if level =? 1 then open_section text st
    else if level =? 2 then open_subsection text st
    else st
  else
    match rmatch true re_figure text with
    | Some m => figure_paragraph writable rels m st
    | None => plain_paragraph para text st
    end.

(** The loop, and the final flush of [current_section]. *)
Definition body_pass (writable : string → bool) (rels : list relationship)
    (paras : list paragraph) : body_state :=
  let st :=
    foldl (body_iter writable rels)
      (BodyState [] [] None None 1 [] (Effects [] [])) paras in
  match current_section st with
  | Some l =>
      BodyState (st_store st) (st_body st ++ [l]) (current_section st)
        (current_subsection st) (fig_count st) (st_figures st) (st_eff st)
  | None => st
  end.

(** *** The table pass *)

Record table_state : Type := TableState {
  ts_store : list obj;
  ts_body : list nat;
  ts_tables : list table;      (* content["tables"] *)
  table_count : nat
}.

Definition clean_row (row : list string) : list (option string) :=
  (λ cell, Some (clean_text cell)) <$> row.

Definition table_iter (st : table_state) (t : list (list string))
    : table_state :=
  match t with
  | [] => st
  | header_row :: others =>
      let table_data :=
        Table ("Table" +:+ str_of_nat (table_count st))
          (clean_row header_row) (clean_row <$> others) in
      match last (ts_body st) with
      | Some l =>
          TableState (append_to l (Leaf (TableNode table_data)) (ts_store st))
            (ts_body st) (ts_tables st ++ [table_data]) (table_count st + 1)
      | None =>
          let '(h, l) :=
            alloc (Obj KSection "Tables" [Leaf (TableNode table_data)])
              (ts_store st) in
          TableState h (ts_body st ++ [l]) (ts_tables st ++ [table_data])
            (table_count st + 1)
      end
  end.

Definition table_pass (h : list obj) (body : list nat)
    (tbls : list (list (list string))) : table_state :=
  foldl table_iter (TableState h body [] 1) tbls.

(** *** The reference pass *)

(** [re.match(r'references?', clean_text(para.text), re.I)] *)
Definition re_references : regex :=
  Cat (Lit "reference") (opt (is_char "s")).

Definition is_references (para : paragraph) : bool :=
  bool_decide (is_Some (rmatch true re_references (clean_text (text para)))).

(** The index [j] at which the [enumerate] loop breaks. *)
Fixpoint find_ref_section (j : nat) (paras : list paragraph) : option nat :=
  match paras with
  | [] => None
  | para :: paras' =>
      if is_references para then Some j else find_ref_section (S j) paras'
  end.

Fixpoint collect_refs (ref_id : nat) (paras : list paragraph)
    : list reference :=
  match paras with
  | [] => []
  | para :: paras' =>
      let text := clean_text (text para) in
      if is_empty text then collect_refs ref_id paras'
      else if is_heading para then []
      else Reference (str_of_nat ref_id) text :: collect_refs (ref_id + 1) paras'
  end.

(** [if ref_section:] is the truth value of an optional integer: [None]
    and [0] are both false. *)
Definition reference_pass (paras : list paragraph) : list reference :=
  match find_ref_section 0 paras with
  | Some (S j) => collect_refs 1 (drop (S j + 1) paras)
  | _ => []
  end.

(** *** The value returned *)

(** The dictionary found at an address, with its contents. *)
Fixpoint reify (depth : nat) (h : list obj) (it : item) {struct depth} : node :=
  match it with
  | Leaf n => n
  | Ref l =>
      match depth, h !! l with
      | S d, Some o =>
          match okind o with
          | KSection => Section (oheading o) (reify d h <$> ocontent o)
          | KSubsection => Subsection (oheading o) (reify d h <$> ocontent o)
          end
      | _, _ => Paragraph ""
      end
  end.

Definition reify_body (h : list obj) (body : list nat) : list node :=
  (λ l, reify 2 h (Ref l)) <$> body.

(** The paragraphs the body pass starts from, with what was read before
    them. *)
Record front : Type := Front {
  f_title : string;
  f_authors : list author;
  f_abstract : string;
  f_keywords : list string;
  f_rest : list paragraph
}.

Definition front_matter (paras : list paragraph) : front :=
  let '(title, paras1) :=
    match skip_blank paras with
    | p :: paras' => (clean_text (text p), paras')
    | [] => ("", [])
    end in
  let '(block, paras2) := author_block paras1 in
  let '(ak, paras3) := ak_loop (AkState false false [] "" []) paras2 in
  Front title (parse_author <$> block) (ak_abstract ak) (ak_keywords ak) paras3.

Definition extract_docx (writable : string → bool) (doc : document)
    : Content * effects :=
  let paras := doc_paragraphs doc in
  let fm := front_matter paras in
  let bs := body_pass writable (doc_rels doc) (f_rest fm) in
  let ts := table_pass (st_store bs) (st_body bs) (doc_tables doc) in
  (MkContent
     (MkMetadata (f_title fm) (f_authors fm) (f_abstract fm) (f_keywords fm)
        (st_figures bs))
     (reify_body (ts_store ts) (ts_body ts))
     (reference_pass paras)
     (ts_tables ts),
   st_eff bs).

End Docx.

(** ** The paginated-document extractor: [extract_pdf]

    An exception that leaves [extract_pdf] is modelled by the result
    [None]. *)

Module Pdf.
Import Text Re.

(** *** Input: what [fitz] and [pdfplumber] hand out, page by page *)

(** A block of [page.get_text("blocks")] *)
Record block : Type := Block {
  x0 : Q; y0 : Q; x1 : Q; y1 : Q;
  btext : string;
  block_no : nat;
  block_type : nat
}.

(** A table found by [pdf_page.find_tables()]: its bounding box, and
    what [extract()] and [extract_table()] return ([None]: the call
    raises; an empty list also stands for a returned [None]). *)
Record found_table : Type := FoundTable {
  bbox : Q * Q * Q * Q;
  extract : option (list (list (option string)));
  extract_table : option (list (list (option string)))
}.

(** An entry of [page.get_images(full=True)], with what
    [doc.extract_image(xref)] returns for it: the bytes and the
    extension, or [None] when it raises. *)
Record page_image : Type := PageImage {
  xref : nat;
  extract_image : option (string * string)
}.

Record page : Type := Page {
  get_text_blocks : list block;
  find_tables : list found_table;
  get_images : list page_image
}.

(** *** [list.sort(key=...)]: a stable sort *)

Section Sort.
Context {A : Type} (key : A → Q).

Fixpoint insert_sorted (x : A) (l : list A) : list A :=
  match l with
  | [] => [x]
  | y :: l' =>
      if Qle_bool (key y) (key x) then y :: insert_sorted x l'
      else x :: l
  end.

Definition sort_by (l : list A) : list A :=
  foldl (λ acc x, insert_sorted x acc) [] l.
End Sort.

(** *** [sanitize_filename] *)

(** [fig\s*\d*\s*:] *)
Definition re_fig_head : regex :=
  Cat (Lit "fig")
    (Cat (star is_space) (Cat (star is_digit) (Cat (star is_space) (Lit ":")))).

(** [fig\s*\d*\s*:\s*(.+)] *)
Definition re_fig_caption : regex :=
  Cat re_fig_head (Cat (star is_space) (Grp (plus dot))).

(** [[^\w\-_. ]] *)
Definition re_unsafe : regex :=
  one (λ c, negb (is_word c || is_char "-" c || is_char "_" c
                  || is_char "." c || is_char " " c)).

Definition sanitize_filename (text : string) : string :=
  let caption_text :=
    match rmatch true re_fig_caption text with
    | Some m => group m 1
    | None => text
    end in
  let caption_text := strip (lower caption_text) in
  let caption_text := sub false re_unsafe "" caption_text in
  let caption_text := replace " " "_" caption_text in
  if is_empty caption_text then "image" else caption_text.

(** *** One page *)

Inductive combined_item : Type :=
| CTable (y : Q) (idx : nat) (tbl : found_table)
| CText (y : Q) (b : block).

Definition item_key (it : combined_item) : Q :=
  match it with CTable y _ _ => y | CText y _ => y end.

Record pdf_state : Type := PdfState {
  output : list string;
  st_figures : list figure_entry;
  st_tables : list table;
  tables_output : gset nat;      (* the tables of the page seen so far *)
  image_used : list bool;
  st_eff : effects
}.

(** [with open(path, "wb") as f: f.write(bytes)] *)
Definition write_file (writable : string → bool) (path bytes : string)
    (eff : effects) : option effects :=
  if writable path then Some (Effects (files eff ++ [(path, bytes)]) (log eff))
  else None.

Definition fig_label (figures : list figure_entry) : string :=
  "Fig" +:+ str_of_nat (length figures + 1).

(** A table item of the merged stream. *)
Definition table_item (idx : nat) (tbl : found_table) (st : pdf_state)
    : option pdf_state :=
  if decide (idx ∉ tables_output st) then
    table_data ←
      match extract tbl with
      | Some d => Some d
      | None => extract_table tbl
      end;
    let tables :=
      match table_data with
      | [] => st_tables st
      | head :: others =>
          st_tables st
            ++ [Table ("Table" +:+ str_of_nat (length (st_tables st) + 1))
                  head others]
      end in
    Some (PdfState (output st) (st_figures st) tables
            ({[idx]} ∪ tables_output st) (image_used st) (st_eff st))
  else Some st.

(** [(\S+@\S+)] *)
Definition re_address : regex :=
  let nonspace c := negb (is_space c) in
  Grp (Cat (plus nonspace) (Cat (Lit "@") (plus nonspace))).

(** [^[••\-]\s*], which can only match at the start of the text *)
Definition re_bullet : regex :=
  Cat (Alt (Lit "•") (Lit "-")) (star is_space).

Definition with_output (lines : list string) (st : pdf_state) : pdf_state :=
  PdfState (output st ++ lines) (st_figures st) (st_tables st)
    (tables_output st) (image_used st) (st_eff st).

Definition inside (b : block) (bb : Q * Q * Q * Q) : bool :=
  let '(_, top, _, bottom) := bb in
  Qle_bool top (y0 b) && Qle_bool (y1 b) bottom.

(** The index of the first image of the page not used yet. *)
Definition first_unused (used : list bool) : option nat :=
  fst <$> list_find (λ u, u = false) used.

(** A caption line: bind it to the first unused image of the page. *)
Definition caption_line (writable : string → bool)
    (images_info : list (string * string)) (text : string) (st : pdf_state)
    : option pdf_state :=
  match first_unused (image_used st) with
  | Some idx =>
      let '(bytes, ext) := default ("", "") (images_info !! idx) in
      let filename := sanitize_filename text +:+ "." +:+ ext in
      let filepath_img := path_join media_dir filename in
      eff ← write_file writable filepath_img bytes (st_eff st);
      Some (PdfState (output st)
              (st_figures st
                 ++ [FigureDict (fig_label (st_figures st)) text filepath_img])
              (st_tables st) (tables_output st)
              (<[idx := true]> (image_used st)) eff)
  | None => Some (with_output [text] st)
  end.

(** The lines an e-mail address splits [text] into, when the text has
    one and does not start with the label. *)
Definition email_split (text : string) : option (list string) :=
  match search false re_address text with
  | Some (pre, m) =>
      if negb (startswith "Email:" text) then
        let before_email := strip pre in
        let email := group m 1 in
        let after_email := strip (rest m) in
        Some ((if is_empty before_email then [] else [before_email])
              ++ [email]
              ++ (if is_empty after_email then [] else [after_email]))
      else None
  | None => None
  end.

Definition is_caption (text : string) : bool :=
  bool_decide (is_Some (rmatch true re_fig_head text)).

(** A text item of the merged stream. *)
Definition text_item (writable : string → bool)
    (tables : list found_table) (images_info : list (string * string))
    (b : block) (st : pdf_state) : option pdf_state :=
  if block_type b =? 0 then
    let text := strip (btext b) in
    let skip_line := existsb (λ t, inside b (bbox t)) tables in
    if skip_line || is_empty text then Some st
    else
      match email_split text with
      | Some lines => Some (with_output lines st)
      | None =>
          let text :=
            match rmatch false re_bullet text with
            | Some m => "- " +:+ rest m
            | None => text
            end in
          let text :=
            if is_caption text
            then sub true (Lit "paractice") "practice" text
            else text in
          if is_caption text then caption_line writable images_info text st
          else Some (with_output [text] st)
      end
  else Some st.

Definition item_iter (writable : string → bool)
    (tables : list found_table) (images_info : list (string * string))
    (st : pdf_state) (it : combined_item) : option pdf_state :=
  match it with
  | CTable _ idx tbl => table_item idx tbl st
  | CText _ b => text_item writable tables images_info b st
  end.

(** A [for] loop whose body may raise. *)
Fixpoint for_each {S X : Type} (f : S → X → option S) (st : S)
    (l : list X) : option S :=
  match l with
  | [] => Some st
  | x :: l' => st' ← f st x; for_each f st' l'
  end.

(** The images of the page that no caption took. *)
Definition leftover_image (writable : string → bool) (page_num : nat)
    (images_info : list (string * string)) (st : pdf_state)
    (entry : nat * bool) : option pdf_state :=
  let '(idx, used) := entry in
  if used then Some st
  else
    let '(bytes, ext) := default ("", "") (images_info !! idx) in
    let filename :=
      "image_" +:+ str_of_nat page_num +:+ "_" +:+ str_of_nat (idx + 1)
      +:+ "." +:+ ext in
    let filepath_img := path_join media_dir filename in
    eff ← write_file writable filepath_img bytes (st_eff st);
    Some (PdfState (output st)
            (st_figures st
               ++ [FigureDict (fig_label (st_figures st)) filename filepath_img])
            (st_tables st) (tables_output st) (image_used st) eff).

Definition combine (tables : list found_table) (blocks : list block)
    : list combined_item :=
  sort_by item_key
    (imap (λ idx t, CTable (bbox t).1.1.2 idx t) tables
     ++ ((λ b, CText (y0 b) b) <$> blocks)).

Definition page_iter (writable : string → bool) (st : pdf_state)
    (entry : nat * page) : option pdf_state :=
  let '(page_num, page) := entry in
  let blocks := sort_by y0 (get_text_blocks page) in
  let combined := combine (find_tables page) blocks in
  images_info ← mapM extract_image (get_images page);
  let st :=
    PdfState (output st) (st_figures st) (st_tables st) ∅
      (replicate (length images_info) false) (st_eff st) in
  st ← for_each (item_iter writable (find_tables page) images_info) st combined;
  for_each (leftover_image writable page_num images_info) st
    (imap (λ idx used, (idx, used)) (image_used st)).

(** *** The post-pass *)

Fixpoint collapse_blank (prev_empty : bool) (output : list string)
    : list string :=
  match output with
  | [] => []
  | line :: output' =>
      if is_empty (strip line) then
        (if prev_empty then [] else [""]) ++ collapse_blank true output'
      else line :: collapse_blank false output'
  end.

Definition extract_pdf (writable : string → bool) (doc : list page)
    : option (Content * effects) :=
  st ← for_each (page_iter writable)
         (PdfState [] [] [] ∅ [] (Effects [] []))
         (imap (λ i page, (i + 1, page)) doc);
  let references : list reference := [] in
  let cleaned_output := collapse_blank false (output st) in
  let metadata :=
    MkMetadata (default "" (head cleaned_output)) [] "" [] (st_figures st) in
  let body :=
    Paragraph <$> filter (λ line, line ≠ "") (tail cleaned_output) in
  Some (MkContent metadata body references (st_tables st), st_eff st).

End Pdf.

(** ** The shape of a body: sections and the subsections nested in them *)

Module Outline.
Import Text Re Docx.

(** The headings of the subsections that are direct children. *)
Definition subsection_headings (content : list node) : list string :=
  omap (λ n, match n with Subsection h _ => Some h | _ => None end) content.

(** A section seen as its heading and the headings of its subsections. *)
Definition outline (n : node) : option (string * list string) :=
  match n with
  | Section h content => Some (h, subsection_headings content)
  | _ => None
  end.

(** What the body loop takes a paragraph for. *)
Inductive para_class : Type :=
| Blank
| Heading1 (text : string)
| Heading2 (text : string)
| HeadingOther
| FigureLine
| Plain.

Definition classify (para : paragraph) : para_class :=
  let text := clean_text (text para) in
  if is_empty text then Blank
  else if is_heading para then
    if get_heading_level para =? 1 then Heading1 text
    else if get_heading_level para =? 2 then Heading2 text
    else HeadingOther
  else if bool_decide (is_Some (rmatch true re_figure text)) then FigureLine
  else Plain.





(** The section made up by the table pass when the body is still empty
    and some table has a row. *)
Definition with_tables_section (sections : list (string * list string))
    (tbls : list (list (list string))) : list (string * list string) :=
  match sections with
  | [] => if existsb (λ t, negb (bool_decide (t = []))) tbls
          then [("Tables", [])] else []
  | _ => sections
  end.

(** The paragraphs at which the body pass starts. *)
Definition body_paragraphs (doc : document) : list paragraph :=
  f_rest (front_matter (doc_paragraphs doc)).

(** Table [t] is a content node of some section of [body]. *)
Definition in_a_section (t : table) (body : list node) : Prop :=
  ∃ heading content,
    Section heading content ∈ body ∧ TableNode t ∈ content.

(** Table [t] is a content node of the last node of [body], a section. *)
Definition in_last_section (t : table) (body : list node) : Prop :=
  ∃ heading content,
    last body = Some (Section heading content) ∧ TableNode t ∈ content.

Definition is_paragraph (n : node) : Prop := ∃ text, n = Paragraph text.

(** *** The outline read off the store *)

Definition item_heading (h : list obj) (it : item) : option string :=
  match reify 1 h it with
  | Subsection hd _ => Some hd
  | _ => None
  end.

Definition loc_outline (h : list obj) (l : nat)
    : option (string * list string) :=
  outline (reify 2 h (Ref l)).

(** The sections of a state: those flushed, then the open one. *)
Definition st_sections (st : body_state) : list nat :=
  st_body st ++ option_list (current_section st).

(** How one paragraph changes the outline. *)
Definition outline_step (o : list (string * list string)) (c : para_class)
    : list (string * list string) :=
  match c with
  | Heading1 t => o ++ [(t, [])]
  | Heading2 t =>
      match last o with
      | Some (hd, subs) => removelast o ++ [(hd, subs ++ [t])]
      | None => [("Untitled Section", [t])]
      end
  | Plain =>
      match o with
      | [] => [("Introduction", [])]
      | _ => o
      end
  | _ => o
  end.

(** *** Well-formed stores *)

Definition valid (k : kind) (h : list obj) (l : nat) : Prop :=
  ∃ o, h !! l = Some o ∧ okind o = k.

(** Every address held in a content list is allocated. *)
Definition closed (h : list obj) : Prop :=
  ∀ l o l', h !! l = Some o → Ref l' ∈ ocontent o → l' < length h.

Record body_inv (st : body_state) : Prop := BodyInv {
  inv_body : Forall (valid KSection (st_store st)) (st_body st);
  inv_section :
    ∀ l, current_section st = Some l →
         valid KSection (st_store st) l ∧ l ∉ st_body st;
  inv_subsection :
    ∀ l, current_subsection st = Some l →
         valid KSubsection (st_store st) l ∧ is_Some (current_section st);
  inv_none : current_section st = None → st_body st = [];
  inv_closed : closed (st_store st)
}.

(** An update of a dictionary that leaves its outline alone: same type and
    heading, no address added, and the same subsections. *)
Definition neutral (f : obj → obj) : Prop :=
  ∀ o,
    okind (f o) = okind o
    ∧ oheading (f o) = oheading o
    ∧ (∀ l, Ref l ∈ ocontent (f o) → Ref l ∈ ocontent o)
    ∧ (∀ h, omap (item_heading h) (ocontent (f o))
            = omap (item_heading h) (ocontent o)).

(** The image a figure file is made from. *)
Definition from_first_image (rels : list relationship)
    (f : string * string) : Prop :=
  ∃ rel, first_image rels = Some rel ∧ f.2 = blob (target_part rel).

(** *** The table pass *)

(** The last section of [body] holds table [td]. *)
Definition holds_table (h : list obj) (body : list nat) (td : table) : Prop :=
  ∃ l ob,
    last body = Some l ∧ h !! l = Some ob ∧ Leaf (TableNode td) ∈ ocontent ob.

Definition table_inv (st : table_state) (o : list (string * list string))
    : Prop :=
  Forall (valid KSection (ts_store st)) (ts_body st)
  ∧ loc_outline (ts_store st) <$> ts_body st = Some <$> o
  ∧ Forall (holds_table (ts_store st) (ts_body st)) (ts_tables st).

End Outline.

(** ** Sample inputs *)

Module Samples.
Import Docx Pdf.

Definition normal (text : string) : paragraph := Para text "Normal".
Definition heading1 (text : string) : paragraph := Para text "Heading 1".

Definition png (bytes : string) : relationship :=
  Rel RT_IMAGE (ImagePart bytes (Some (Some "PNG"))).

(** The styled scenario of the specification. *)
Definition jane_doe : document :=
  Document
    [normal "Title"; normal "Jane Doe, PI, MIT"; normal "Abstract";
     normal "This is the abstract."; normal "Keywords";
     normal "alpha, beta"; heading1 "Intro"; normal "Hello world."]
    [] [].

(** Two figure paragraphs, two embedded images. *)
Definition two_figures : document :=
  Document
    [normal "Title"; heading1 "Results"; normal "Figure 1: first";
     normal "Figure 2: second"]
    []
    [png "bytes of image A"; png "bytes of image B"].

(** The document starts with the reference list. *)
Definition references_first : document :=
  Document [normal "References"; normal "[1] Foo, 2020"] [] [].


(** Nothing but blank paragraphs. *)
Definition blank_pages : document :=
  Document [normal "   "; normal ""; heading1 " "] [] [].

(** One styled table with a header and a row. *)
Definition one_table : document :=
  Document [normal "Title"; heading1 "Data"] [[["a"; "b"]; ["1"; "2"]]] [].

Definition block_at (y : Q) (text : string) : block :=
  Block 0 y 100 (y + 1) text 0 0.

(** A page with a title, a table and a reference list. *)
Definition table_page : page :=
  Page
    [block_at 1 "My Title"; block_at 30 "References";
     block_at 31 "[1] Foo, 2020"]
    [FoundTable (0, 10, 100, 20)%Q (Some [[Some "h"]; [Some "cell"]]) None]
    [].

(** A page that holds one embedded image and nothing else. *)
Definition image_page : page :=
  Page [] [] [PageImage 7 (Some ("bytes of the image", "png"))].

(** The image directory cannot be written to. *)
Definition read_only : string → bool := λ _, false.
Definition read_write : string → bool := λ _, true.

End Samples.

(** ** The renderer, continued: the other methods of [LatexConverter]

    The methods read the dictionaries the extractors build; a key they look
    up is a field of the model, so the defaults of [dict.get] for a missing
    key do not arise.  A method that raises returns [None]: the one way
    to raise is [clean_latex_text] applied to the [None] of a missing
    table cell. *)

Module Formatter.
Import Text LatexConverter.

(** [affil_map.setdefault(affil, len(affil_map) + 1)] on a dictionary kept
    in insertion order. *)
Definition assoc (key : string) (d : list (string * nat)) : option nat :=
  snd <$> List.find (λ kv, bool_decide (kv.1 = key)) d.

Definition setdefault (key : string) (value : nat) (d : list (string * nat))
    : list (string * nat) * nat :=
  match assoc key d with
  | Some v => (d, v)
  | None => (d ++ [(key, value)], value)
  end.

Definition author_line (affil_key : nat) (a : author) : string :=
  "\author[inst" +:+ str_of_nat affil_key +:+ "]{" +:+ name a +:+ "}".

Definition address_line (entry : string * nat) : string :=
  "\address[inst" +:+ str_of_nat entry.2 +:+ "]{" +:+ entry.1 +:+ "}".

(** The first loop of [format_authors]: [author_lines] and [affil_map]. *)
Definition author_step (st : list string * list (string * nat)) (a : author)
    : list string * list (string * nat) :=
  let '(affil_map, affil_key) :=
    setdefault (affiliation a) (length st.2 + 1) st.2 in
  (st.1 ++ [author_line affil_key a], affil_map).

Definition author_loop (authors : list author)
    : list string * list (string * nat) :=
  foldl author_step ([], []) authors.

Definition format_authors (authors : list author) : string :=
  match authors with
  | [] => "Unknown Author"
  | _ =>
      let '(author_lines, affil_map) := author_loop authors in
      join nl (author_lines ++ (address_line <$> affil_map))
  end.

Definition format_roles (authors : list author) : string :=
  join "\\"
    ((λ a, name a +:+ " (" +:+ role a +:+ ")")
       <$> filter (λ a, role a ≠ "") authors).

Definition format_figure (label caption content : string) : string :=
  let caption := clean_latex_text caption in
  let label := replace " " "" label in
  let path := replace bs "/" content in
  "\begin{figure}[H]" +:+ nl
  +:+ "\centering" +:+ nl
  +:+ "\includegraphics[width=0.8\textwidth]{" +:+ path +:+ "}" +:+ nl
  +:+ "\caption{" +:+ caption +:+ "}" +:+ nl
  +:+ "\label{" +:+ label +:+ "}" +:+ nl
  +:+ "\end{figure}".

Definition format_list (items : list string) : string :=
  "\begin{itemize}" +:+ nl
  +:+ join nl ((λ i, "  \item " +:+ clean_latex_text i) <$> items)
  +:+ nl +:+ "\end{itemize}".

(** [clean_latex_text] on a table cell: a missing cell has no [replace]. *)
Definition clean_cell (cell : option string) : option string :=
  clean_latex_text <$> cell.

Definition format_table (t : table) : option string :=
  headers ← mapM clean_cell (header t);
  rows ← mapM (mapM clean_cell) (rows t);
  let col_format := join " | " (replicate (length headers) "l") in
  let latex_rows := (λ row, join " & " row +:+ " \\") <$> rows in
  Some ("\begin{table}[H]" +:+ nl +:+ "\centering" +:+ nl
        +:+ "\caption{" +:+ label t +:+ "}" +:+ nl
        +:+ "\label{tab:" +:+ lower (label t) +:+ "}" +:+ nl
        +:+ "\begin{tabular}{|" +:+ col_format +:+ "|}" +:+ nl
        +:+ "\hline" +:+ nl
        +:+ join " & " headers +:+ " \\" +:+ nl +:+ "\hline" +:+ nl
        +:+ join nl latex_rows +:+ nl +:+ "\hline" +:+ nl
        +:+ "\end{tabular}" +:+ nl +:+ "\end{table}").

Fixpoint format_content_item (item : node) : option string :=
  match item with
  | Paragraph text => Some (clean_latex_text text)
  | Figure label caption content => Some (format_figure label caption content)
  | ListNode items => Some (format_list items)
  | TableNode t => format_table t
  | Subsection heading content =>
      subitems ← mapM format_content_item content;
      Some ("\subsection{" +:+ heading +:+ "}" +:+ nl +:+ nl
            +:+ join (nl +:+ nl) subitems)
  | Section _ _ => Some ""
  end.

(** The markup pieces one element of [body_sections] contributes. *)
Definition format_section (section : node) : option (list string) :=
  match section with
  | Section heading content =>
      items ← mapM format_content_item content;
      Some (("\section{" +:+ heading +:+ "}") :: items)
  | _ => Some []
  end.

Definition format_body (body_sections : list node) : option string :=
  latex ← mapM format_section body_sections;
  Some (join (nl +:+ nl) (concat latex)).

(** [prepare_template_data]: the dictionary handed to the template, in
    the order of its keys.  [short_title] is [title[:30]], the first 30
    characters of the title; [str_take] counts 8-bit characters, which
    are the characters of a title of ASCII text. *)
Definition prepare_template_data (data : Content)
    : option (list (string * string)) :=
  let metadata := metadata data in
  content ← format_body (body data);
  Some [("title", title metadata);
        ("short_title", str_take 30 (title metadata));
        ("abstract", abstract metadata);
        ("keywords", join ", " (keywords metadata));
        ("author_block", format_authors (authors metadata));
        ("credit_roles", format_roles (authors metadata));
        ("content", content);
        ("bibliography", format_references (references data));
        ("non_technical_summary", "");
        ("acknowledgements", "");
        ("data_availability", "");
        ("competing_interests", "");
        ("methods_content", "");
        ("doi", "");
        ("editor_name", "");
        ("received_date", "");
        ("accepted_date", "");
        ("published_date", "");
        ("year", "2025");
        ("volume", "1");
        ("paper_number", "001");
        ("bib_file", "references.bib")].

End Formatter.

(** * Notions used to state the properties

    Predicates and reference functions in which the properties of the
    renderer and of the two extractors are stated. *)

Module Notions.
Import Text Re Docx Pdf LatexConverter Formatter.

(** What the ten replacements of [clean_latex_text] make of one
    character, read off their order: the backslash of an escape written by
    an earlier replacement is rewritten by the last one. *)
Definition escaped (c : ascii) : string :=
  if is_char "&" c then "\textbackslash&"
  else if is_char "%" c then "\textbackslash%"
  else if is_char "$" c then "\textbackslash$"
  else if is_char "#" c then "\textbackslash#"
  else if is_char "_" c then "\textbackslash_"
  else if is_char "{" c then "\textbackslash{"
  else if is_char "}" c then "\textbackslash}"
  else if is_char "~" c then "\textbackslashtextasciitilde"
  else if is_char "^" c then "\textbackslashtextasciicircum"
  else if is_char bs c then "\textbackslash"
  else String c "".

Fixpoint escape_each (s : string) : string :=
  match s with
  | EmptyString => EmptyString
  | String c s' => escaped c +:+ escape_each s'
  end.

(** The characters [clean_latex_text] rewrites. *)
Definition special (c : ascii) : bool :=
  is_char "&" c || is_char "%" c || is_char "$" c || is_char "#" c
  || is_char "_" c || is_char "{" c || is_char "}" c || is_char "~" c
  || is_char "^" c || is_char bs c.

(** Every character of [s] satisfies [p]. *)
Fixpoint all_chars (p : ascii → bool) (s : string) : bool :=
  match s with
  | EmptyString => true
  | String c s' => p c && all_chars p s'
  end.

(** A content entry of the store that [format_content_item] accepts. *)
Definition leaf_ok (it : item) : Prop :=
  match it with
  | Leaf n => is_Some (format_content_item n)
  | Ref _ => True
  end.

Definition store_ok (h : list obj) : Prop :=
  Forall (λ o, Forall leaf_ok (ocontent o)) h.

(** The table dictionary built for the styled table [t], numbered
    [count]. *)
Definition table_of (count : nat) (t : list (list string)) : table :=
  Table ("Table" +:+ str_of_nat count)
    (clean_row (default [] (head t))) (clean_row <$> tail t).

(** The extension [save_image] gives the files of a document: that of its
    first image relationship. *)
Definition first_ext (rels : list relationship) : string :=
  match first_image rels with
  | Some rel =>
      match pil_format (target_part rel) with
      | Some (Some (String c f)) => lower (String c f)
      | _ => "png"
      end
  | None => "png"
  end.

(** The path of the figure file numbered [index]. *)
Definition figure_path (ext : string) (index : nat) : string :=
  path_join media_dir ("figure_" +:+ str_of_nat index +:+ "." +:+ ext).

(** The id and the path recorded in an entry of [metadata["figures"]]. *)
Definition figure_id_path (f : figure_entry) : string * string :=
  match f with
  | ImageInfo id _ _ path => (id, path)
  | FigureDict label _ content => (label, content)
  end.

(** What a page needs for its extraction to go through: every image can
    be extracted and every table gives its data one way or the other. *)
Definition page_readable (pg : page) : Prop :=
  Forall (λ im, is_Some (extract_image im)) (get_images pg)
  ∧ Forall (λ t, is_Some (extract t) ∨ is_Some (extract_table t))
      (find_tables pg).

(** The number of entries of [image_used] that are set. *)
Definition count_used (used : list bool) : nat :=
  length (filter (λ u, u = true) used).

Definition count_unused (used : list bool) : nat :=
  length (filter (λ u, u = false) used).

(** Figures and tables carry the labels Fig1, Fig2, ... and Table1,
    Table2, ... *)
Definition labels_dense (figs : list figure_entry) (tbls : list table)
    : Prop :=
  (figure_id_path <$> figs).*1
  = (λ i, "Fig" +:+ str_of_nat i) <$> seq 1 (length figs)
  ∧ label <$> tbls = (λ i, "Table" +:+ str_of_nat i) <$> seq 1 (length tbls).

(** A pattern that matches exactly one character, of class [p]. *)
Definition one_char (r : regex) (p : ascii → bool) : Prop :=
  rmatch false r "" = None
  ∧ ∀ c s,
      rmatch false r (String c s)
      = if p c then Some (Matched (String c "") [] s) else None.

(** The separators of author parts and keywords. *)
Definition is_separator (c : ascii) : bool :=
  is_char "," c || is_char ";" c.

(** The characters [sanitize_filename] lets through, the space become an
    underscore. *)
Definition filename_char (c : ascii) : bool :=
  is_word c || is_char "-" c || is_char "_" c || is_char "." c.

(** A trimmed, non-empty text without comma or semicolon. *)
Definition good_keyword (kw : string) : Prop :=
  kw ≠ ""
  ∧ all_chars (λ c, negb (is_separator c)) kw = true
  ∧ strip kw = kw.

(** The number of leading characters of class [p], and what follows
    them. *)
Fixpoint span (p : ascii → bool) (s : string) : nat :=
  match s with
  | String c s' => if p c then S (span p s') else 0
  | EmptyString => 0
  end.

Fixpoint drop_while (p : ascii → bool) (s : string) : string :=
  match s with
  | String c s' => if p c then drop_while p s' else s
  | EmptyString => EmptyString
  end.

(** The only white space of [s] is the space character, never two in a
    row, and not at the start when [prev_space] is set. *)
Fixpoint spaced (prev_space : bool) (s : string) : bool :=
  match s with
  | EmptyString => true
  | String c s' =>
      if is_space c then is_char " " c && negb prev_space && spaced true s'
      else spaced false s'
  end.

(** *** ASCII input

    The tables of [Text] are Python's classes restricted to ASCII (see
    the head of the file); the properties that depend on what counts as
    white space, a letter or a word character are stated for input made
    of ASCII characters, where a character is a code point is a byte and
    the model's classes are Python's. *)

Definition is_ascii (c : ascii) : bool := code c <? 128.

Definition ascii_text (s : string) : bool := all_chars is_ascii s.

(** The texts and the style names of the paragraphs. *)
Definition ascii_paragraphs (paras : list paragraph) : bool :=
  forallb (λ p, ascii_text (text p) && ascii_text (style_name p)) paras.

(** The cells of the styled tables. *)
Definition ascii_tables (tbls : list (list (list string))) : bool :=
  forallb (forallb (forallb ascii_text)) tbls.

(** The text blocks of the pages. *)
Definition ascii_pages (doc : list page) : bool :=
  forallb (λ pg, forallb (λ b, ascii_text (btext b)) (get_text_blocks pg))
    doc.

(** *** Author lines *)

(** [s] cut at every character of class [p]. *)
Fixpoint pieces (p : ascii → bool) (s : string) : list string :=
  match s with
  | EmptyString => [EmptyString]
  | String c s' =>
      if p c then EmptyString :: pieces p s'
      else
        match pieces p s' with
        | piece :: others => String c piece :: others
        | [] => [String c EmptyString]
        end
  end.


(** A text of the form local@domain.tld, the language of the e-mail
    pattern. *)
Definition is_address (e : string) : Prop :=
  ∃ local dom tld,
    e = local +:+ "@" +:+ dom +:+ "." +:+ tld
    ∧ local ≠ "" ∧ all_chars email_chr local = true
    ∧ dom ≠ "" ∧ all_chars email_chr dom = true
    ∧ tld ≠ "" ∧ all_chars is_word tld = true.




(** *** Affiliations *)

(** The elements of [l] in the order of their first occurrence. *)
Fixpoint first_occurrences (l : list string) : list string :=
  match l with
  | [] => []
  | x :: l' => x :: filter (λ y, y ≠ x) (first_occurrences l')
  end.

(** *** Embedded images *)

(** The bytes of the images of a page, in the order of
    [page.get_images]. *)
Definition image_bytes (pg : page) : list string :=
  omap (λ im, fst <$> extract_image im) (get_images pg).

(** The bytes of the images of a page whose mark in [image_used] is
    [b]. *)
Fixpoint marked (b : bool) (used : list bool)
    (images_info : list (string * string)) : list string :=
  match used, images_info with
  | u :: used', info :: images_info' =>
      (if bool_decide (u = b) then [info.1] else [])
      ++ marked b used' images_info'
  | _, _ => []
  end.

End Notions.

(** * Properties *)

(** ** The renderer *)

Section Renderer.
Import Text LatexConverter.

(** C1.  The escape step does not leave the escaped form of a character
    where the character stood: the backslash is replaced last, so the
    backslash of every escape written before it is itself rewritten.  On
    the text [&] the result is [\textbackslash&], not [\&]: the escaped
    form is absent and the ampersand stands unescaped in the output. *)
Theorem clean_latex_text_ampersand :
  clean_latex_text "&" = "\textbackslash&"
  ∧ clean_latex_text "&" ≠ "\&"
  ∧ startswith "\&" (clean_latex_text "&") = false.
Proof. split; [reflexivity|]. split; [vm_compute; congruence|reflexivity]. Qed.

Lemma unique_refs_snoc (refs : list reference) (r : reference) :
  unique_refs (refs ++ [r]) =
    if decide (citation r ∈ citation <$> unique_refs refs)
    then unique_refs refs else unique_refs refs ++ [r].
Proof.
  unfold unique_refs.
  assert (Hseen : ∀ c, c ∈ (foldl unique_step ([], ∅) refs).2
                       ↔ c ∈ citation <$> (foldl unique_step ([], ∅) refs).1).
  { induction refs as [|x refs IH] using rev_ind.
    - intros c. simpl. rewrite elem_of_empty, elem_of_nil. tauto.
    - rewrite foldl_app. simpl. unfold unique_step at 1 3.
      intros c. case_decide; simpl; [|apply IH].
      rewrite fmap_app, elem_of_app, elem_of_union, IH. simpl.
      rewrite elem_of_singleton, list_elem_of_singleton. tauto. }
  rewrite foldl_app. simpl. unfold unique_step at 1.
  destruct (decide (citation r ∉ _)) as [Hn|Hn]; rewrite Hseen in Hn.
  - rewrite decide_False by done. done.
  - rewrite decide_True; [done|]. by apply dec_stable.
Qed.

Lemma find_snoc {A} (f : A → bool) (l : list A) (x : A) :
  List.find f (l ++ [x]) =
    match List.find f l with
    | Some y => Some y
    | None => if f x then Some x else None
    end.
Proof. induction l as [|y l IH]; simpl; [done|]. by destruct (f y). Qed.

Lemma find_none_citation (refs : list reference) (c : string) :
  c ∉ citation <$> refs →
  List.find (λ x, bool_decide (citation x = c)) refs = None.
Proof.
  induction refs as [|x refs IH]; simpl; [done|].
  rewrite not_elem_of_cons. intros [Hx Hr].
  rewrite bool_decide_eq_false_2 by done. auto.
Qed.

Lemma unique_refs_citations (refs : list reference) (c : string) :
  c ∈ citation <$> unique_refs refs ↔ c ∈ citation <$> refs.
Proof.
  revert c. induction refs as [|x refs IH] using rev_ind; [done|].
  intros c. rewrite unique_refs_snoc.
  case_decide as Hin; rewrite !fmap_app, !elem_of_app; simpl.
  - rewrite IH. rewrite IH in Hin. rewrite list_elem_of_singleton.
    split; [tauto|]. intros [?| ->]; auto.
  - by rewrite IH.
Qed.

(** C8.  The bibliography has one entry for each distinct citation text:
    the entries kept are duplicate-free in their citation, every citation
    of the input is kept, the kept references are a subsequence of the
    input (insertion order), and each kept reference is the first of the
    input with its citation text, whatever the ids are. *)
Theorem format_references_deduplicates (refs : list reference) :
  NoDup (citation <$> unique_refs refs)
  ∧ (∀ c, c ∈ citation <$> unique_refs refs ↔ c ∈ citation <$> refs)
  ∧ sublist (unique_refs refs) refs
  ∧ Forall (λ r, List.find (λ x, bool_decide (citation x = citation r)) refs
                 = Some r) (unique_refs refs)
  ∧ format_references refs =
      match refs with
      | [] => ""
      | _ => join nl (bibitem <$> unique_refs refs)
      end.
Proof.
  split; [|split; [apply unique_refs_citations|split; [|split; [|done]]]].
  - induction refs as [|x refs IH] using rev_ind; [constructor|].
    rewrite unique_refs_snoc. case_decide as Hin; [done|].
    rewrite fmap_app. apply NoDup_app. split; [done|]. split.
    + intros c Hc Hx. apply list_elem_of_singleton in Hx. by subst.
    + apply NoDup_singleton.
  - induction refs as [|x refs IH] using rev_ind; [done|].
    rewrite unique_refs_snoc. case_decide.
    + by apply sublist_inserts_r.
    + by apply sublist_app.
  - induction refs as [|x refs IH] using rev_ind; [constructor|].
    rewrite unique_refs_snoc. case_decide as Hin.
    + eapply Forall_impl; [exact IH|]. simpl. intros r Hr.
      by rewrite find_snoc, Hr.
    + apply Forall_app. split.
      * eapply Forall_impl; [exact IH|]. simpl. intros r Hr.
        by rewrite find_snoc, Hr.
      * apply Forall_singleton. rewrite find_snoc.
        rewrite find_none_citation by (by rewrite <-unique_refs_citations).
        by rewrite bool_decide_eq_true_2.
Qed.

End Renderer.

(** ** The store of the body pass *)

Section BodyStore.
Import Text Re Docx Outline.

Lemma reify_ref (d : nat) (h : list obj) (l : nat) :
  reify (S d) h (Ref l) =
    match h !! l with
    | Some o =>
        match okind o with
        | KSection => Section (oheading o) (reify d h <$> ocontent o)
        | KSubsection => Subsection (oheading o) (reify d h <$> ocontent o)
        end
    | None => Paragraph ""
    end.
Proof. done. Qed.

Lemma item_heading_ref (h : list obj) (l : nat) :
  item_heading h (Ref l) =
    match h !! l with
    | Some o =>
        match okind o with KSubsection => Some (oheading o) | _ => None end
    | None => None
    end.
Proof.
  unfold item_heading. simpl.
  destruct (h !! l) as [o|]; [|done]. by destruct (okind o).
Qed.

Lemma subsection_headings_reify (h : list obj) (c : list item) :
  subsection_headings (reify 1 h <$> c) = omap (item_heading h) c.
Proof.
  unfold subsection_headings, item_heading.
  induction c as [|it c IH]; [done|].
  cbn -[reify]. cbn -[reify] in IH. by rewrite IH.
Qed.

Lemma loc_outline_eq (h : list obj) (l : nat) :
  loc_outline h l =
    match h !! l with
    | Some o =>
        match okind o with
        | KSection => Some (oheading o, omap (item_heading h) (ocontent o))
        | KSubsection => None
        end
    | None => None
    end.
Proof.
  unfold loc_outline. rewrite reify_ref.
  destruct (h !! l) as [o|]; [|done].
  destruct (okind o); cbn [outline]; [|done].
  by rewrite subsection_headings_reify.
Qed.

Lemma item_heading_app (h h' : list obj) (it : item) :
  (∀ l, it = Ref l → l < length h) →
  item_heading (h ++ h') it = item_heading h it.
Proof.
  destruct it as [n|l]; [done|]. intros Hl.
  rewrite !item_heading_ref, lookup_app_l by auto. done.
Qed.

Lemma item_heading_alter (f : obj → obj) (l : nat) (h : list obj) (it : item) :
  (∀ o, okind (f o) = okind o ∧ oheading (f o) = oheading o) →
  item_heading (alter f l h) it = item_heading h it.
Proof.
  intros Hf. destruct it as [n|l']; [done|].
  rewrite !item_heading_ref.
  destruct (decide (l = l')) as [->|Hne].
  - rewrite list_lookup_alter_eq. destruct (h !! l') as [o|]; [|done]. simpl.
    destruct (Hf o) as (-> & ->). done.
  - by rewrite list_lookup_alter_ne.
Qed.

Lemma omap_item_heading_app (h h' : list obj) (c : list item) :
  (∀ l, Ref l ∈ c → l < length h) →
  omap (item_heading (h ++ h')) c = omap (item_heading h) c.
Proof.
  induction c as [|it c IH]; [done|]. intros Hc. cbn -[item_heading].
  rewrite item_heading_app, IH; [done| |].
  - intros l Hl. apply Hc. by right.
  - intros l ->. apply Hc. by left.
Qed.

Lemma omap_item_heading_alter (f : obj → obj) (l : nat) (h : list obj)
    (c : list item) :
  (∀ o, okind (f o) = okind o ∧ oheading (f o) = oheading o) →
  omap (item_heading (alter f l h)) c = omap (item_heading h) c.
Proof.
  intros Hf. induction c as [|it c IH]; [done|]. cbn -[item_heading].
  by rewrite item_heading_alter, IH.
Qed.

Lemma loc_outline_app (h h' : list obj) (l : nat) :
  closed h → l < length h →
  loc_outline (h ++ h') l = loc_outline h l.
Proof.
  intros Hc Hl. rewrite !loc_outline_eq, lookup_app_l by done.
  destruct (h !! l) as [o|] eqn:E; [|done].
  destruct (okind o); [|done].
  rewrite omap_item_heading_app; [done|]. intros l' Hin. by apply (Hc l o).
Qed.

Lemma neutral_keeps (f : obj → obj) :
  neutral f → ∀ o, okind (f o) = okind o ∧ oheading (f o) = oheading o.
Proof. intros Hf o. destruct (Hf o) as (? & ? & _). done. Qed.

Lemma loc_outline_alter_ne (f : obj → obj) (l l' : nat) (h : list obj) :
  (∀ o, okind (f o) = okind o ∧ oheading (f o) = oheading o) →
  l ≠ l' → loc_outline (alter f l h) l' = loc_outline h l'.
Proof.
  intros Hf Hne. rewrite !loc_outline_eq.
  rewrite list_lookup_alter_ne by done.
  destruct (h !! l') as [o|]; [|done].
  destruct (okind o); [|done].
  by rewrite omap_item_heading_alter.
Qed.

Lemma loc_outline_alter (f : obj → obj) (l l' : nat) (h : list obj) :
  neutral f → loc_outline (alter f l h) l' = loc_outline h l'.
Proof.
  intros Hf. destruct (decide (l = l')) as [->|Hne].
  - rewrite !loc_outline_eq.
    rewrite list_lookup_alter_eq. destruct (h !! l') as [o|]; [|done]. simpl.
    destruct (Hf o) as (-> & -> & _ & Hm).
    destruct (okind o); [|done].
    rewrite omap_item_heading_alter, Hm; [done|by apply neutral_keeps].
  - apply loc_outline_alter_ne; [by apply neutral_keeps|done].
Qed.

Lemma valid_lt (k : kind) (h : list obj) (l : nat) :
  valid k h l → l < length h.
Proof. intros (o & Ho & _). by eapply lookup_lt_Some. Qed.

Lemma valid_app (k : kind) (h h' : list obj) (l : nat) :
  valid k h l → valid k (h ++ h') l.
Proof.
  intros (o & Ho & Hk). exists o. split; [|done].
  rewrite lookup_app_l; [done|]. by eapply lookup_lt_Some.
Qed.

Lemma valid_alter (k : kind) (f : obj → obj) (h : list obj) (l l' : nat) :
  (∀ o, okind (f o) = okind o) →
  valid k h l' → valid k (alter f l h) l'.
Proof.
  intros Hf (o & Ho & Hk). destruct (decide (l = l')) as [->|Hne].
  - exists (f o). rewrite list_lookup_alter_eq, Ho. by rewrite Hf.
  - exists o. by rewrite list_lookup_alter_ne.
Qed.

Lemma valid_fresh (k : kind) (h : list obj) (o : obj) :
  okind o = k → valid k (h ++ [o]) (length h).
Proof. intros Hk. exists o. by rewrite lookup_app_r, Nat.sub_diag. Qed.

Lemma closed_alloc (h : list obj) (o : obj) :
  closed h →
  (∀ l', Ref l' ∈ ocontent o → l' < S (length h)) →
  closed (h ++ [o]).
Proof.
  intros Hc Ho l o' l' Hl Hin. rewrite length_app. simpl.
  apply lookup_app_Some in Hl as [Hl|[_ Hl]].
  - specialize (Hc l o' l' Hl Hin). lia.
  - apply list_lookup_singleton_Some in Hl as [_ <-].
    specialize (Ho l' Hin). lia.
Qed.

Lemma closed_alter (f : obj → obj) (l : nat) (h : list obj) (extra : nat) :
  closed h →
  (∀ o l', Ref l' ∈ ocontent (f o) → Ref l' ∈ ocontent o ∨ l' = extra) →
  extra < length h →
  closed (alter f l h).
Proof.
  intros Hc Hf He l0 o l' Hl Hin. rewrite length_alter.
  destruct (decide (l = l0)) as [->|Hne].
  - rewrite list_lookup_alter_eq in Hl.
    destruct (h !! l0) as [o0|] eqn:E; simplify_eq/=.
    destruct (Hf o0 l' Hin) as [Hin'| ->]; [|done]. by apply (Hc l0 o0).
  - rewrite list_lookup_alter_ne in Hl by done. by apply (Hc l0 o).
Qed.

Lemma neutral_push_leaf (n : node) :
  match n with Subsection _ _ => False | _ => True end →
  neutral (push (Leaf n)).
Proof.
  intros Hn o. simpl. repeat split.
  - intros l [Hin|Hin%list_elem_of_singleton]%elem_of_app; [done|congruence].
  - intros h. rewrite omap_app. cbn -[item_heading].
    replace (item_heading h (Leaf n)) with (@None string).
    + by rewrite app_nil_r.
    + unfold item_heading. simpl. by destruct n.
Qed.

Lemma neutral_add_list_item (x : string) :
  neutral (λ o, Obj (okind o) (oheading o) (add_list_item x (ocontent o))).
Proof.
  intros o. simpl. repeat split.
  - intros l. unfold add_list_item.
    destruct (last (ocontent o)) as [[[]|]|] eqn:E;
      try (intros [Hin|Hin%list_elem_of_singleton]%elem_of_app;
             [done|congruence]).
    apply last_Some in E as [c' ->]. rewrite removelast_last.
    intros [Hin|Hin%list_elem_of_singleton]%elem_of_app; [|congruence].
    apply elem_of_app. by left.
  - intros h. unfold add_list_item.
    destruct (last (ocontent o)) as [[[]|]|] eqn:E;
      try (rewrite omap_app; cbn -[item_heading]; by rewrite app_nil_r).
    apply last_Some in E as [c' ->]. rewrite removelast_last.
    by rewrite !omap_app.
Qed.

Lemma closed_alter_neutral (f : obj → obj) (l : nat) (h : list obj) :
  closed h → neutral f → closed (alter f l h).
Proof.
  intros Hc Hf l0 o l' Hl Hin. rewrite length_alter.
  destruct (decide (l = l0)) as [->|Hne].
  - rewrite list_lookup_alter_eq in Hl.
    destruct (h !! l0) as [o0|] eqn:E; simplify_eq/=.
    destruct (Hf o0) as (_ & _ & Hr & _). apply (Hc l0 o0); auto.
  - rewrite list_lookup_alter_ne in Hl by done. by apply (Hc l0 o).
Qed.

Lemma sections_valid (st : body_state) :
  body_inv st → Forall (valid KSection (st_store st)) (st_sections st).
Proof.
  intros [Hb Hs _ _ _]. unfold st_sections. apply Forall_app. split; [done|].
  destruct (current_section st) as [l|]; simpl; [|constructor].
  apply Forall_singleton. by apply Hs.
Qed.

(** An update that is neutral for the outline keeps the invariant and
    the outline. *)
Lemma neutral_update (st : body_state) (f : obj → obj) (l : nat)
    (h : list obj) (b : list nat) (cs sub : option nat) (fc : nat)
    (figs : list figure_entry) (eff : effects) :
  body_inv st → neutral f →
  h = alter f l (st_store st) → b = st_body st →
  cs = current_section st → sub = current_subsection st →
  body_inv (BodyState h b cs sub fc figs eff)
  ∧ loc_outline h <$> st_sections (BodyState h b cs sub fc figs eff)
    = loc_outline (st_store st) <$> st_sections st.
Proof.
  intros [Hb Hs Hu Hn Hc] Hf -> -> -> ->. split.
  - split; simpl.
    + eapply Forall_impl; [exact Hb|]. intros l0.
      apply valid_alter. intros o. by apply neutral_keeps.
    + intros l0 Hl0. destruct (Hs l0 Hl0). split; [|done].
      apply valid_alter; [|done]. intros o. by apply neutral_keeps.
    + intros l0 Hl0. destruct (Hu l0 Hl0). split; [|done].
      apply valid_alter; [|done]. intros o. by apply neutral_keeps.
    + done.
    + by apply closed_alter_neutral.
  - unfold st_sections. simpl. apply list_fmap_ext.
    intros i x _. by apply loc_outline_alter.
Qed.

Lemma neutral_id : neutral (λ o, o).
Proof. intros o. done. Qed.

Lemma alter_id_store (l : nat) (h : list obj) : h = alter (λ o, o) l h.
Proof. symmetry. by apply list_alter_id. Qed.

Lemma outlines_app (st : body_state) (h' : list obj) :
  body_inv st →
  loc_outline (st_store st ++ h') <$> st_sections st
  = loc_outline (st_store st) <$> st_sections st.
Proof.
  intros Hinv. apply list_fmap_ext. intros i l Hl.
  apply loc_outline_app; [by destruct Hinv|].
  eapply valid_lt, Forall_lookup_1; [by apply sections_valid|done].
Qed.

Lemma st_sections_eq h b cs sub fc figs eff :
  st_sections (BodyState h b cs sub fc figs eff) = b ++ option_list cs.
Proof. done. Qed.

Lemma open_section_unfold (text : string) (st : body_state) :
  open_section text st =
    BodyState (st_store st ++ [Obj KSection text []]) (st_sections st)
      (Some (length (st_store st))) None
      (fig_count st) (st_figures st) (st_eff st).
Proof.
  unfold open_section, st_sections, alloc.
  destruct (current_section st); simpl; by rewrite ?app_nil_r.
Qed.

Lemma open_section_sim (text : string) (st : body_state)
    (o : list (string * list string)) :
  body_inv st →
  loc_outline (st_store st) <$> st_sections st = Some <$> o →
  body_inv (open_section text st)
  ∧ loc_outline (st_store (open_section text st))
      <$> st_sections (open_section text st)
    = Some <$> (o ++ [(text, [])]).
Proof.
  intros Hinv Ho. pose proof (sections_valid st Hinv) as Hv.
  rewrite open_section_unfold. split.
  - split; simpl.
    + eapply Forall_impl; [exact Hv|].
      intros l. apply valid_app.
    + intros l [= <-]. split; [by apply valid_fresh|].
      intros Hin.
      eapply Forall_forall in Hv; [|exact Hin].
      apply valid_lt in Hv. lia.
    + done.
    + done.
    + apply closed_alloc; [by destruct Hinv|].
      simpl. intros l' Hl'. by apply elem_of_nil in Hl'.
  - rewrite st_sections_eq. cbn [st_store option_list].
    rewrite !fmap_app, outlines_app, Ho by done. f_equal.
    simpl. rewrite loc_outline_eq, lookup_app_r, Nat.sub_diag by done.
    done.
Qed.

Lemma open_subsection_sim (text : string) (st : body_state)
    (o : list (string * list string)) :
  body_inv st →
  loc_outline (st_store st) <$> st_sections st = Some <$> o →
  body_inv (open_subsection text st)
  ∧ loc_outline (st_store (open_subsection text st))
      <$> st_sections (open_subsection text st)
    = Some <$> outline_step o (Heading2 text).
Proof.
  intros Hinv Ho. pose proof (sections_valid st Hinv) as Hv.
  destruct Hinv as [Hb Hs Hu Hn Hc].
  unfold open_subsection, alloc, append_to.
  destruct (current_section st) as [ls|] eqn:Ecs.
  - destruct (Hs ls eq_refl) as [Hls Hfresh].
    pose proof (valid_lt _ _ _ Hls) as Hlt.
    set (sub := Obj KSubsection text []).
    assert (Hkeep : ∀ o0, okind (push (Ref (length (st_store st))) o0) = okind o0
              ∧ oheading (push (Ref (length (st_store st))) o0) = oheading o0)
      by done.
    unfold st_sections in Ho, Hv |- *. rewrite Ecs in Ho, Hv. simpl in Ho, Hv.
    cbn [st_store st_body current_section current_subsection option_list].
    split.
    + split; simpl.
      * eapply Forall_impl; [exact Hb|]. intros l Hl.
        apply valid_alter; [done|]. by apply valid_app.
      * intros l [= <-]. split; [|done].
        apply valid_alter; [done|]. by apply valid_app.
      * intros l [= <-]. split; [|done].
        apply valid_alter; [done|]. by apply valid_fresh.
      * done.
      * apply (closed_alter _ _ _ (length (st_store st))).
        -- apply closed_alloc; [done|]. simpl.
           intros l' Hl'. by apply elem_of_nil in Hl'.
        -- intros o0 l'. simpl.
           intros [Hin|Hin%list_elem_of_singleton]%elem_of_app;
             [by left|right; congruence].
        -- rewrite length_app. simpl. lia.
    + rewrite fmap_app in Ho. simpl in Ho.
      destruct o as [|x o _] using rev_ind.
      { simpl in Ho. by apply app_eq_nil in Ho as [_ [=]]. }
      rewrite fmap_app in Ho. simpl in Ho.
      apply app_inj_tail in Ho as [Ho Hx].
      destruct x as [hd subs].
      unfold outline_step. rewrite last_snoc, removelast_last.
      rewrite !fmap_app. simpl. f_equal.
      * rewrite <-Ho. apply list_fmap_ext. intros i l Hl.
        rewrite loc_outline_alter_ne; [|done|].
        -- apply loc_outline_app; [done|].
           eapply valid_lt, Forall_lookup_1; [exact Hb|done].
        -- intros ->. apply Hfresh. by eapply list_elem_of_lookup_2.
      * f_equal. rewrite loc_outline_eq in Hx |- *.
        rewrite list_lookup_alter_eq, lookup_app_l by done.
        destruct Hls as (os & Hos & Hk). rewrite Hos in Hx |- *.
        simpl. rewrite Hk in Hx |- *. simplify_eq. f_equal. f_equal.
        rewrite omap_app. f_equal.
        -- rewrite omap_item_heading_alter by done.
           apply omap_item_heading_app. intros l'. by apply (Hc ls os).
        -- cbn -[item_heading]. rewrite item_heading_ref.
           rewrite list_lookup_alter_ne by lia.
           by rewrite lookup_app_r, Nat.sub_diag.
  - pose proof (Hn eq_refl) as Hnil. unfold st_sections in Ho.
    rewrite Ecs, Hnil in Ho. simpl in Ho.
    destruct o; [|done].
    split.
    + split; simpl.
      * rewrite Hnil. constructor.
      * intros l [= <-]. split.
        -- rewrite length_app. simpl. rewrite Nat.add_1_r.
           replace (S (length (st_store st)))
             with (length (st_store st ++ [Obj KSubsection text []]))
             by (rewrite length_app; simpl; lia).
           by apply valid_fresh.
        -- rewrite Hnil. apply not_elem_of_nil.
      * intros l [= <-]. split; [|done].
        apply valid_app. by apply valid_fresh.
      * done.
      * apply closed_alloc.
        -- apply closed_alloc; [done|]. simpl.
           intros l' Hl'. by apply elem_of_nil in Hl'.
        -- simpl. intros l' Hl'%list_elem_of_singleton.
           rewrite length_app. simpl. simplify_eq. lia.
    + rewrite st_sections_eq. cbn [st_store option_list].
      rewrite Hnil. simpl. f_equal.
      rewrite loc_outline_eq.
      rewrite lookup_app_r by lia. rewrite Nat.sub_diag.
      simpl. f_equal. f_equal. cbn -[item_heading].
      rewrite item_heading_ref.
      rewrite lookup_app_l by (rewrite length_app; simpl; lia).
      by rewrite lookup_app_r, Nat.sub_diag.
Qed.

Lemma figure_paragraph_sim (writable : string → bool)
    (rels : list relationship) (m : matched) (st : body_state) :
  body_inv st →
  body_inv (figure_paragraph writable rels m st)
  ∧ loc_outline (st_store (figure_paragraph writable rels m st))
      <$> st_sections (figure_paragraph writable rels m st)
    = loc_outline (st_store st) <$> st_sections st.
Proof.
  intros Hinv. unfold figure_paragraph.
  destruct (match first_image rels with Some _ => _ | None => _ end)
    as [image_info eff].
  destruct image_info as [[id filename cap path|]|];
    cbn [st_store];
    try (eapply (neutral_update st (λ o, o) 0); try done;
           first [apply neutral_id|apply alter_id_store]).
  unfold append_to.
  destruct (current_subsection st) as [l|] eqn:Es;
    [|destruct (current_section st) as [l|] eqn:E].
  - eapply (neutral_update st (push (Leaf _)) l); try done.
    by apply neutral_push_leaf.
  - eapply (neutral_update st (push (Leaf _)) l); try done.
    by apply neutral_push_leaf.
  - eapply (neutral_update st (λ o, o) 0); try done;
      first [apply neutral_id|apply alter_id_store].
Qed.

Lemma plain_paragraph_sim (para : paragraph) (text : string)
    (st : body_state) (o : list (string * list string)) :
  body_inv st →
  loc_outline (st_store st) <$> st_sections st = Some <$> o →
  body_inv (plain_paragraph para text st)
  ∧ loc_outline (st_store (plain_paragraph para text st))
      <$> st_sections (plain_paragraph para text st)
    = Some <$> outline_step o Plain.
Proof.
  intros Hinv Ho. unfold plain_paragraph.
  assert (Hf : neutral
    (if is_list_paragraph para text
     then λ o, Obj (okind o) (oheading o)
                 (add_list_item (strip (lstrip_bullets text)) (ocontent o))
     else push (Leaf (Paragraph text)))).
  { destruct (is_list_paragraph para text);
      [apply neutral_add_list_item|by apply neutral_push_leaf]. }
  assert (Hnonempty : is_Some (current_section st) → outline_step o Plain = o).
  { intros [l Hl]. unfold st_sections in Ho. rewrite Hl in Ho.
    destruct o; [|done]. apply fmap_nil_inv in Ho.
    by apply app_eq_nil in Ho as [_ [=]]. }
  destruct (current_subsection st) as [l|] eqn:Es;
    [|destruct (current_section st) as [l|] eqn:E].
  - destruct Hinv as [Hb Hs Hu Hn Hc]. destruct (Hu l Es) as [_ Hcs].
    rewrite (Hnonempty Hcs), <-Ho.
    cbn [st_store]. eapply neutral_update; [done|exact Hf| |done..].
    unfold append_to. by destruct (is_list_paragraph para text).
  - rewrite (Hnonempty (mk_is_Some _ _ eq_refl)), <-Ho.
    cbn [st_store]. eapply neutral_update; [done|exact Hf| |done..].
    unfold append_to. by destruct (is_list_paragraph para text).
  - destruct (open_section_sim "Introduction" st o Hinv Ho) as [Hinv' Ho'].
    rewrite open_section_unfold in Hinv', Ho'.
    assert (Hsec : st_sections st = st_body st).
    { unfold st_sections. rewrite E. simpl. apply app_nil_r. }
    rewrite Hsec in Hinv', Ho'. cbn [st_store] in Ho'.
    assert (o = []) as ->.
    { destruct Hinv as [_ _ _ Hn _]. rewrite Hsec, (Hn E) in Ho.
      by destruct o. }
    simpl in Ho'.
    change (Some <$> outline_step [] Plain)
      with [Some ("Introduction", [] : list string)].
    rewrite <-Ho'.
    unfold alloc. cbv beta iota zeta. cbn [st_store].
    eapply (neutral_update
              (BodyState (st_store st ++ [Obj KSection "Introduction" []])
                 (st_body st) (Some (length (st_store st))) None
                 (fig_count st) (st_figures st) (st_eff st))
              _ (length (st_store st)));
      [exact Hinv'|exact Hf| |done..].
    unfold append_to. by destruct (is_list_paragraph para text).
Qed.

Lemma body_iter_sim (writable : string → bool) (rels : list relationship)
    (st : body_state) (para : paragraph) (o : list (string * list string)) :
  body_inv st →
  loc_outline (st_store st) <$> st_sections st = Some <$> o →
  body_inv (body_iter writable rels st para)
  ∧ loc_outline (st_store (body_iter writable rels st para))
      <$> st_sections (body_iter writable rels st para)
    = Some <$> outline_step o (classify para).
Proof.
  intros Hinv Ho. unfold body_iter, classify.
  destruct (is_empty _); [done|].
  destruct (is_heading para).
  - destruct (get_heading_level para =? 1); [by apply open_section_sim|].
    destruct (get_heading_level para =? 2); [by apply open_subsection_sim|].
    done.
  - destruct (rmatch true re_figure _) as [m|] eqn:Em.
    + rewrite bool_decide_eq_true_2 by done. cbn [outline_step].
      rewrite <-Ho. by apply figure_paragraph_sim.
    + rewrite bool_decide_eq_false_2 by (by intros [? ?]).
      by apply plain_paragraph_sim.
Qed.

Lemma body_loop_sim (writable : string → bool) (rels : list relationship)
    (paras : list paragraph) (st : body_state)
    (o : list (string * list string)) :
  body_inv st →
  loc_outline (st_store st) <$> st_sections st = Some <$> o →
  let st' := foldl (body_iter writable rels) st paras in
  body_inv st'
  ∧ loc_outline (st_store st') <$> st_sections st'
    = Some <$> foldl outline_step o (classify <$> paras).
Proof.
  revert st o. induction paras as [|para paras IH]; intros st o Hinv Ho.
  - done.
  - simpl.
    destruct (body_iter_sim writable rels st para o Hinv Ho) as [Hinv' Ho'].
    by apply IH.
Qed.

Lemma body_inv_init (fc : nat) (figs : list figure_entry) (eff : effects) :
  body_inv (BodyState [] [] None None fc figs eff).
Proof.
  split; simpl; try done.
Qed.

Lemma body_pass_sections (writable : string → bool)
    (rels : list relationship) (paras : list paragraph) :
  let st := body_pass writable rels paras in
  Forall (valid KSection (st_store st)) (st_body st)
  ∧ loc_outline (st_store st) <$> st_body st
    = Some <$> foldl outline_step [] (classify <$> paras).
Proof.
  unfold body_pass.
  set (st0 := BodyState [] [] None None 1 [] (Effects [] [])).
  destruct (body_loop_sim writable rels paras st0 []) as [Hinv Ho];
    [apply body_inv_init|done|].
  simpl in Hinv, Ho. pose proof (sections_valid _ Hinv) as Hv.
  unfold st_sections in Ho, Hv.
  destruct (current_section (foldl _ st0 paras)) as [l|]; simpl in *.
  - done.
  - by rewrite app_nil_r in Ho, Hv.
Qed.




Lemma with_tables_section_nil (o : list (string * list string)) :
  with_tables_section o [] = o.
Proof. by destruct o. Qed.

Lemma with_tables_section_cons (o : list (string * list string))
    (t : list (list string)) (ts : list (list (list string))) :
  with_tables_section (with_tables_section o [t]) ts
  = with_tables_section o (t :: ts).
Proof.
  destruct o as [|x o]; [|done]. simpl.
  destruct t; simpl; done.
Qed.

Lemma table_iter_inv (st : table_state) (t : list (list string))
    (o : list (string * list string)) :
  table_inv st o → table_inv (table_iter st t) (with_tables_section o [t]).
Proof.
  intros (Hv & Ho & Ht). unfold table_iter.
  destruct t as [|header_row others].
  { assert (with_tables_section o [[]] = o) as -> by (by destruct o).
    done. }
  set (td := Table _ _ _).
  assert (Hneutral : neutral (push (Leaf (TableNode td))))
    by by apply neutral_push_leaf.
  destruct (last (ts_body st)) as [l|] eqn:El.
  - assert (with_tables_section o [header_row :: others] = o) as ->.
    { destruct o; [|done]. apply fmap_nil_inv in Ho.
      by rewrite Ho in El. }
    assert (Hl : valid KSection (ts_store st) l).
    { eapply Forall_forall; [exact Hv|].
      apply last_Some in El as [b' ->]. apply elem_of_app. right.
      apply list_elem_of_here. }
    destruct Hl as (ob & Hob & _).
    unfold append_to. repeat split; simpl.
    + eapply Forall_impl; [exact Hv|]. intros l0. by apply valid_alter.
    + rewrite <-Ho. apply list_fmap_ext. intros i l0 _.
      by apply loc_outline_alter.
    + apply Forall_app. split.
      * eapply Forall_impl; [exact Ht|]. intros td0 (l0 & ob0 & Hl0 & Hob0 & Hin).
        rewrite El in Hl0. injection Hl0 as <-.
        rewrite Hob in Hob0. injection Hob0 as <-.
        exists l, (push (Leaf (TableNode td)) ob).
        split; [done|]. rewrite list_lookup_alter_eq, Hob. split; [done|].
        simpl. apply elem_of_app. by left.
      * apply Forall_singleton.
        exists l, (push (Leaf (TableNode td)) ob).
        split; [done|]. rewrite list_lookup_alter_eq, Hob. split; [done|].
        simpl. apply elem_of_app. right. apply list_elem_of_here.
  - apply last_None in El.
    assert (o = []) as ->.
    { rewrite El in Ho. by destruct o. }
    assert (ts_tables st = []) as Etab.
    { destruct (ts_tables st) as [|td0 tds]; [done|].
      apply Forall_cons in Ht as [(l0 & ob0 & Hl0 & _) _].
      by rewrite El in Hl0. }
    unfold alloc. rewrite El, Etab. repeat split; simpl.
    + apply Forall_singleton. by apply valid_fresh.
    + f_equal. rewrite loc_outline_eq.
      by rewrite lookup_app_r, Nat.sub_diag.
    + apply Forall_singleton.
      exists (length (ts_store st)), (Obj KSection "Tables" [Leaf (TableNode td)]).
      split; [done|]. rewrite lookup_app_r, Nat.sub_diag by done.
      split; [done|]. apply list_elem_of_here.
Qed.

Lemma table_fold_inv (tbls : list (list (list string))) (st : table_state)
    (o : list (string * list string)) :
  table_inv st o →
  table_inv (foldl table_iter st tbls) (with_tables_section o tbls).
Proof.
  revert st o. induction tbls as [|t tbls IH]; intros st o Hinv; simpl foldl.
  - by rewrite with_tables_section_nil.
  - rewrite <-with_tables_section_cons. by apply IH, table_iter_inv.
Qed.

Lemma extract_docx_table_inv (writable : string → bool) (doc : document) :
  let bs := body_pass writable (doc_rels doc) (body_paragraphs doc) in
  table_inv (table_pass (st_store bs) (st_body bs) (doc_tables doc))
    (with_tables_section
       (foldl outline_step [] (classify <$> body_paragraphs doc))
       (doc_tables doc)).
Proof.
  simpl. unfold table_pass. apply table_fold_inv.
  destruct (body_pass_sections writable (doc_rels doc) (body_paragraphs doc))
    as [Hv Ho].
  repeat split; simpl; [done|done|constructor].
Qed.

End BodyStore.

(** ** The styled-document extractor *)

Section Styled.
Import Text Re Docx Outline Samples Notions.

(** *** Facts on the string helpers *)

Lemma rstrip_idemp (s : string) : rstrip (rstrip s) = rstrip s.
Proof.
  induction s as [|c s IH]; simpl; [done|].
  destruct (is_space c && is_empty (rstrip s)) eqn:E; simpl; [done|].
  by rewrite IH, E.
Qed.

Lemma lstrip_head (s : string) :
  match lstrip s with
  | String c _ => is_space c = false
  | EmptyString => True
  end.
Proof.
  induction s as [|c s IH]; simpl; [done|].
  destruct (is_space c) eqn:E; [done|]. simpl. done.
Qed.

Lemma strip_idemp (s : string) : strip (strip s) = strip s.
Proof.
  unfold strip. pose proof (lstrip_head s) as H.
  destruct (lstrip s) as [|c t]; simpl; [done|].
  rewrite H. simpl. rewrite H. simpl.
  pose proof (rstrip_idemp (String c t)) as Hr. simpl in Hr.
  by rewrite H in Hr.
Qed.


Lemma split_go_nonempty (i : bool) (r : regex) (k : nat) (s : string) :
  split_go i r k s ≠ [].
Proof.
  revert k. induction s as [|c s IH]; intros k; simpl; [done|].
  destruct k as [|k]; [|apply IH].
  destruct (String.length <$> _) as [[|n]|]; try done;
    by destruct (split_go i r 0 s).
Qed.

(** A text that [re.split] leaves in one piece is that piece. *)
Lemma split_single (i : bool) (r : regex) (s x : string) :
  split i r s = [x] → x = s.
Proof.
  unfold split. revert x. induction s as [|c s IH]; intros x; simpl.
  { by intros [= <-]. }
  destruct (String.length <$> _) as [[|n]|].
  - destruct (split_go i r 0 s) as [|p ps] eqn:E;
      [by apply split_go_nonempty in E|].
    intros [= <- ->]. by rewrite (IH p).
  - intros [= _ H]. by apply split_go_nonempty in H.
  - destruct (split_go i r 0 s) as [|p ps] eqn:E;
      [by apply split_go_nonempty in E|].
    intros [= <- ->]. by rewrite (IH p).
Qed.

(** C10.  When the very first paragraph matches [references?], the index
    found is 0, the test [if ref_section:] fails and the references of the
    result are empty, whatever follows. *)
Theorem references_empty_when_first_paragraph_matches
    (writable : string → bool) (doc : document)
    (para : paragraph) (others : list paragraph) :
  doc_paragraphs doc = para :: others →
  is_references para = true →
  references (extract_docx writable doc).1 = [].
Proof.
  intros Hparas Href. unfold extract_docx. simpl.
  unfold reference_pass. rewrite Hparas. simpl. by rewrite Href.
Qed.

Lemma references_empty_when_first_paragraph_matches_witness :
  collect_refs 1 [normal "[1] Foo, 2020"] = [Reference "1" "[1] Foo, 2020"]
  ∧ references (extract_docx read_write references_first).1 = [].
Proof.
  split; [reflexivity|].
  apply (references_empty_when_first_paragraph_matches read_write
           references_first (normal "References") [normal "[1] Foo, 2020"]);
    reflexivity.
Defined.

(** C5, as the specification states it: on its styled scenario the single
    author would have an empty role and the affiliation "PI".  The line
    has three parts, so this is not what is returned. *)
Lemma jane_doe_not_two_parts :
  ¬ ∃ a, authors (metadata (extract_docx read_write jane_doe).1) = [a]
         ∧ name a = "Jane Doe" ∧ role a = "" ∧ affiliation a = "PI".
Proof. intros (a & Ha & _ & Hrole & _). vm_compute in Ha. by simplify_eq. Qed.

(** C5, amended.  On the styled scenario the title is "Title", the single
    author is "Jane Doe" with role "PI" and affiliation "MIT", the abstract
    is "This is the abstract.", the keywords are "alpha" and "beta", and
    the body is one Section "Intro" holding one Paragraph
    "Hello world.". *)
Theorem jane_doe_extracted (writable : string → bool) :
  (extract_docx writable jane_doe).1 =
    MkContent
      (MkMetadata "Title" [Author "Jane Doe" "PI" "MIT" ""]
         "This is the abstract." ["alpha"; "beta"] [])
      [Section "Intro" [Paragraph "Hello world."]]
      [] [].
Proof. reflexivity. Qed.

(** [save_image] never raises: a decode or save failure yields [None]
    and one printed line, and writes no file. *)
Lemma save_image_failure_is_caught (writable : string → bool)
    (part : image_part) (index : nat) (caption : option string)
    (eff : effects) :
  (save_image writable part index caption eff).1 = None →
  (save_image writable part index caption eff).2
  = Effects (files eff) (log eff ++ [ErrorSavingImage index]).
Proof.
  unfold save_image. destruct (pil_format part) as [format|]; [|done].
  by destruct (writable _).
Qed.

Lemma save_image_files (writable : string → bool)
    (part : image_part) (index : nat) (caption : option string)
    (eff : effects) :
  ∃ written,
    files (save_image writable part index caption eff).2 = files eff ++ written
    ∧ Forall (λ f, f.2 = blob part) written.
Proof.
  unfold save_image. destruct (pil_format part) as [format|].
  - destruct (writable _); simpl.
    + eexists [_]. split; [done|]. by apply Forall_singleton.
    + exists []. by rewrite app_nil_r.
  - exists []. by rewrite app_nil_r.
Qed.

Lemma body_iter_files (writable : string → bool) (rels : list relationship)
    (st : body_state) (para : paragraph) :
  Forall (from_first_image rels) (files (st_eff st)) →
  Forall (from_first_image rels)
    (files (st_eff (body_iter writable rels st para))).
Proof.
  intros Hst. unfold body_iter.
  destruct (is_empty _); [done|].
  destruct (is_heading para).
  - destruct (_ =? 1).
    { unfold open_section, alloc. by destruct (current_section st). }
    destruct (_ =? 2); [|done].
    unfold open_subsection, alloc. by destruct (current_section st).
  - destruct (rmatch true re_figure _) as [m|].
    + unfold figure_paragraph.
      destruct (first_image rels) as [rel|] eqn:Erel.
      * destruct (save_image_files writable (target_part rel) (fig_count st)
          (Some ("Figure " +:+ group m 1 +:+ ": " +:+ strip (group m 2)))
          (st_eff st)) as (written & Hfiles & Hw).
        destruct (save_image _ _ _ _ _) as [[[]|] eff]; simpl in *;
          rewrite Hfiles; apply Forall_app; (split; [done|]);
          (eapply Forall_impl; [exact Hw|]); intros f Hf; by exists rel.
      * done.
    + unfold plain_paragraph.
      by destruct (current_subsection st), (current_section st).
Qed.

(** Every file written by the styled extractor is made from the first
    image relationship of the document. *)
Lemma figure_files_from_first_image (writable : string → bool)
    (doc : document) :
  Forall (from_first_image (doc_rels doc))
    (files (extract_docx writable doc).2).
Proof.
  unfold extract_docx. simpl. unfold body_pass.
  set (st0 := BodyState [] [] None None 1 [] (Effects [] [])).
  assert (H : Forall (from_first_image (doc_rels doc)) (files (st_eff st0)))
    by constructor.
  revert H. generalize st0.
  induction (f_rest (front_matter (doc_paragraphs doc))) as [|para paras IH];
    intros st Hst; simpl.
  - by destruct (current_section st).
  - by apply IH, body_iter_files.
Qed.

(** With an image directory that cannot be written to, the styled
    extractor still returns: the two figures are dropped and two lines are
    printed. *)
Example two_figures_read_only :
  figures (metadata (extract_docx read_only two_figures).1) = []
  ∧ body (extract_docx read_only two_figures).1 = [Section "Results" []]
  ∧ (extract_docx read_only two_figures).2
    = Effects [] [ErrorSavingImage 1; ErrorSavingImage 1].
Proof. repeat split; reflexivity. Qed.

(** C2.  Every figure paragraph is bound to the first image relationship
    of the document, used or not: with two figure paragraphs and two
    images, both figure files are written from the first image and the
    second image is never consumed. *)
Theorem two_figures_share_first_image :
  files (extract_docx read_write two_figures).2 =
    [("extracted_images/figure_1.png", "bytes of image A");
     ("extracted_images/figure_2.png", "bytes of image A")]
  ∧ body (extract_docx read_write two_figures).1 =
      [Section "Results"
         [Figure "Fig1" "first" "extracted_images/figure_1.png";
          Figure "Fig2" "second" "extracted_images/figure_2.png"]].
Proof. split; reflexivity. Qed.

(** The abstract/keywords loop: a turn that does not move the cursor
    clears a flag, so three such turns never follow each other. *)
Lemma ak_again_bounded (st st1 st2 st3 : ak_state) (p : paragraph) :
  ak_iter st p = (st1, Again) →
  ak_iter st1 p = (st2, Again) →
  ak_iter st2 p = (st3, Again) →
  False.
Proof.
  unfold ak_iter.
  destruct (is_empty (clean_text (text p))),
    (is_abstract (clean_text (text p))),
    (bool_decide (is_Some (rmatch true re_keywords (clean_text (text p))))),
    (is_heading p);
    destruct st as [[] [] ? ? ?]; simpl; intros ?; simplify_eq/=;
    intros ?; simplify_eq/=; intros ?; simplify_eq/=.
Qed.

(** The budget of [ak_at] is never used up: more budget changes
    nothing. *)
Lemma ak_at_budget (n : nat) (st : ak_state) (p : paragraph) :
  ak_at (2 + n) st p = ak_at 2 st p.
Proof.
  cbn [Nat.add ak_at].
  destruct (ak_iter st p) as [st1 []] eqn:E1; try done.
  destruct (ak_iter st1 p) as [st2 []] eqn:E2; try done.
  destruct (ak_iter st2 p) as [st3 []] eqn:E3.
  1, 3: destruct n; simpl; by rewrite E3.
  destruct (ak_again_bounded _ _ _ _ _ E1 E2 E3).
Qed.




(** Every table of the result is a content node of the last section of
    the body. *)
Lemma extract_docx_tables_in_last_section
    (writable : string → bool) (doc : document) :
  Forall (λ t, in_last_section t (body (extract_docx writable doc).1))
    (tables (extract_docx writable doc).1).
Proof.
  pose proof (extract_docx_table_inv writable doc) as Hinv.
  unfold extract_docx. unfold body_paragraphs in Hinv.
  cbv zeta in Hinv |- *. cbn [fst body tables].
  set (ts := table_pass _ _ _) in *.
  destruct Hinv as (Hv & _ & Ht).
  eapply Forall_impl; [exact Ht|].
  intros t (l & ob & Hl & Hob & Hin). unfold in_last_section, reify_body.
  rewrite fmap_last, Hl. simpl.
  assert (Hk : okind ob = KSection).
  { eapply Forall_forall in Hv; [|by eapply last_Some_elem_of].
    destruct Hv as (ob' & Hob' & Hk). by simplify_eq. }
  exists (oheading ob), (reify 1 (ts_store ts) <$> ocontent ob).
  rewrite Hob, Hk. split; [done|].
  change (TableNode t) with (reify 1 (ts_store ts) (Leaf (TableNode t))).
  by apply list_elem_of_fmap_2.
Qed.

End Styled.

(** ** The paginated-document extractor *)

Section Paginated.
Import Text Re Pdf Samples.

(** C9.  Whatever the document, a result of [extract_pdf] has no
    references. *)
Theorem extract_pdf_references_empty
    (writable : string → bool) (doc : list page)
    (c : Content) (eff : effects) :
  extract_pdf writable doc = Some (c, eff) → references c = [].
Proof.
  unfold extract_pdf. intros H.
  destruct (for_each _ _ _) as [st|]; simpl in H; [|done].
  by simplify_eq.
Qed.

Lemma extract_pdf_references_empty_witness :
  ∃ c eff,
    extract_pdf read_write [table_page] = Some (c, eff)
    ∧ Paragraph "References" ∈ body c
    ∧ Paragraph "[1] Foo, 2020" ∈ body c
    ∧ references c = [].
Proof.
  eexists _, _. split; [reflexivity|]. split; [|split].
  - apply list_elem_of_here.
  - apply list_elem_of_further, list_elem_of_here.
  - apply (extract_pdf_references_empty read_write [table_page] _ _ eq_refl).
Defined.

(** C7.  On the paginated path a failing write is not caught: with an
    image directory that cannot be written to, a document of one page
    holding one image makes the whole extraction fail. *)
Theorem extract_pdf_write_failure_is_fatal :
  extract_pdf read_only [image_page] = None.
Proof. reflexivity. Qed.

End Paginated.

(** ** Both extractors *)

Section Extractors.
Import Text Re Docx Pdf Outline Samples.

(** C6, as the specification states it for both extractors: on the
    paginated path a table is appended to the top-level list and the body
    has no section at all. *)
Lemma table_page_table_not_in_body :
  ¬ (∀ c eff,
       extract_pdf read_write [table_page] = Some (c, eff) →
       ∀ t, t ∈ tables c → in_a_section t (body c)).
Proof.
  intros H.
  destruct (H _ _ eq_refl (Table "Table1" [Some "h"] [[Some "cell"]]))
    as (heading & content & Hin & _); [apply list_elem_of_here|].
  vm_compute in Hin.
  repeat (apply elem_of_cons in Hin as [Hin|Hin]; [done|]).
  by apply elem_of_nil in Hin.
Qed.

(** C6, amended.  In a result of the styled-document extractor every
    table of the top-level list is also a content node of the last
    section of the body (the section "Tables" made up for it when the
    body was empty).  A result of the paginated extractor has a body of
    paragraphs only: its tables are in the top-level list alone. *)
Theorem tables_inlined_by_styled_extractor
    (writable : string → bool) (doc : document) (pages : list page) :
  Forall (λ t, in_last_section t (body (extract_docx writable doc).1)
               ∧ in_a_section t (body (extract_docx writable doc).1))
    (tables (extract_docx writable doc).1)
  ∧ match extract_pdf writable pages with
    | Some (c, _) => Forall is_paragraph (body c)
    | None => True
    end.
Proof.
  split.
  - eapply Forall_impl; [apply extract_docx_tables_in_last_section|].
    intros t Hlast. split; [done|].
    destruct Hlast as (heading & content & Hl & Hin).
    exists heading, content. split; [|done]. by eapply last_Some_elem_of.
  - unfold extract_pdf.
    destruct (for_each _ _ _) as [st|]; simpl; [|done].
    apply Forall_fmap, Forall_forall. intros line _. by exists line.
Qed.

End Extractors.

(** * Further properties of the renderer and the extractors *)

Section Rendering.
Import Text Re Docx Outline Samples LatexConverter Formatter Notions.

Lemma app_cons (c : ascii) (a b : string) :
  String c a +:+ b = String c (a +:+ b).
Proof. done. Qed.

Lemma app_empty_l (b : string) : "" +:+ b = b.
Proof. done. Qed.

Lemma str_app_assoc (a b c : string) : (a +:+ b) +:+ c = a +:+ (b +:+ c).
Proof. induction a as [|x a IH]; [done|]. by rewrite !app_cons, IH. Qed.

Lemma replace_app (old : ascii) (new a b : string) :
  replace old new (a +:+ b) = replace old new a +:+ replace old new b.
Proof.
  induction a as [|c a IH]; [done|].
  rewrite app_cons. simpl. rewrite IH.
  destruct (bool_decide (c = old)); [by rewrite str_app_assoc|done].
Qed.

Lemma clean_latex_text_app (a b : string) :
  clean_latex_text (a +:+ b) = clean_latex_text a +:+ clean_latex_text b.
Proof. unfold clean_latex_text. by rewrite !replace_app. Qed.

Lemma clean_latex_text_char (c : ascii) :
  clean_latex_text (String c "") = escaped c.
Proof. destruct c as [[] [] [] [] [] [] [] []]; reflexivity. Qed.

Lemma clean_latex_text_escape_each (text : string) :
  clean_latex_text text = escape_each text.
Proof.
  induction text as [|c text IH]; [done|].
  change (String c text) with (String c "" +:+ text).
  rewrite clean_latex_text_app, clean_latex_text_char, IH. done.
Qed.

(** X1.  The ten successive replacements of [clean_latex_text] amount to
    one pass that rewrites each character on its own, by the table
    [escaped]; so the result of a concatenation is the concatenation of
    the results. *)
Theorem clean_latex_text_pointwise (a b : string) :
  clean_latex_text a = escape_each a
  ∧ clean_latex_text (a +:+ b) = clean_latex_text a +:+ clean_latex_text b.
Proof. split; [apply clean_latex_text_escape_each|apply clean_latex_text_app]. Qed.

Lemma escaped_plain (c : ascii) : special c = false → escaped c = String c "".
Proof.
  destruct c as [[] [] [] [] [] [] [] []]; intros H; try reflexivity;
    vm_compute in H; discriminate.
Qed.

(** X2.  A text that holds none of the ten characters [& % $ # _ { } ~ ^ \]
    is returned as it is. *)
Theorem clean_latex_text_plain (text : string) :
  all_chars (λ c, negb (special c)) text = true →
  clean_latex_text text = text.
Proof.
  rewrite clean_latex_text_escape_each.
  induction text as [|c text IH]; [done|]. simpl.
  intros [Hc Ht]%andb_true_iff. apply negb_true_iff in Hc.
  by rewrite escaped_plain, IH.
Qed.

Lemma clean_latex_text_plain_witness :
  clean_latex_text "Hello world, 2020." = "Hello world, 2020.".
Proof. apply clean_latex_text_plain. reflexivity. Defined.

Lemma unique_refs_fixed (refs : list reference) :
  NoDup (citation <$> refs) → unique_refs refs = refs.
Proof.
  induction refs as [|x refs IH] using rev_ind; [done|].
  rewrite fmap_app. intros (Hn & Hx & _)%NoDup_app.
  rewrite unique_refs_snoc, IH by done.
  rewrite decide_False; [done|].
  intros Hin. apply (Hx _ Hin). simpl. apply list_elem_of_here.
Qed.

Lemma unique_refs_NoDup (refs : list reference) :
  NoDup (citation <$> unique_refs refs).
Proof.
  induction refs as [|x refs IH] using rev_ind; [constructor|].
  rewrite unique_refs_snoc. case_decide as Hin; [done|].
  rewrite fmap_app. apply NoDup_app. split; [done|]. split.
  - intros c Hc Hx. apply list_elem_of_singleton in Hx. by subst.
  - apply NoDup_singleton.
Qed.

(** X3.  References whose citation texts are pairwise distinct all stay in
    the bibliography, in their order. *)
Theorem unique_refs_distinct (refs : list reference) :
  NoDup (citation <$> refs) → unique_refs refs = refs.
Proof. apply unique_refs_fixed. Qed.

(** X4.  De-duplicating twice is de-duplicating once. *)
Theorem unique_refs_idemp (refs : list reference) :
  unique_refs (unique_refs refs) = unique_refs refs.
Proof. apply unique_refs_fixed, unique_refs_NoDup. Qed.

Lemma unique_refs_distinct_witness :
  unique_refs [Reference "1" "Foo, 2020"; Reference "2" "Bar, 2021"]
  = [Reference "1" "Foo, 2020"; Reference "2" "Bar, 2021"].
Proof.
  apply unique_refs_distinct. simpl.
  apply NoDup_cons. split.
  - intros Hin%list_elem_of_singleton. discriminate.
  - apply NoDup_singleton.
Defined.

Lemma assoc_app_Some (k : string) (d d' : list (string * nat)) (v : nat) :
  assoc k d = Some v → assoc k (d ++ d') = Some v.
Proof.
  unfold assoc. induction d as [|[k0 v0] d IH]; simpl; [done|].
  destruct (bool_decide (k0 = k)); [done|]. apply IH.
Qed.

Lemma assoc_None (k : string) (d : list (string * nat)) :
  assoc k d = None ↔ k ∉ d.*1.
Proof.
  unfold assoc. induction d as [|[k0 v0] d IH]; simpl.
  - split; [intros _; apply not_elem_of_nil|done].
  - rewrite not_elem_of_cons. destruct (bool_decide_reflect (k0 = k)) as [->|Hne].
    + simpl. split; [done|]. by intros [? _].
    + rewrite IH. split; [by intros ?; split|by intros [_ ?]].
Qed.

Lemma assoc_snoc_None (k : string) (d : list (string * nat)) (v : nat) :
  assoc k d = None → assoc k (d ++ [(k, v)]) = Some v.
Proof.
  unfold assoc. induction d as [|[k0 v0] d IH]; simpl.
  - by rewrite bool_decide_eq_true_2.
  - destruct (bool_decide (k0 = k)); [done|]. apply IH.
Qed.

Lemma author_loop_snoc (authors : list author) (a : author) :
  author_loop (authors ++ [a]) = author_step (author_loop authors) a.
Proof. unfold author_loop. by rewrite foldl_app. Qed.

Lemma author_loop_map (authors : list author) :
  NoDup (author_loop authors).2.*1
  ∧ (author_loop authors).2.*2 = seq 1 (length (author_loop authors).2)
  ∧ (∀ affil, affil ∈ (author_loop authors).2.*1
              ↔ affil ∈ affiliation <$> authors)
  ∧ (author_loop authors).1
    = (λ a, author_line
              (default 0 (assoc (affiliation a) (author_loop authors).2)) a)
        <$> authors.
Proof.
  induction authors as [|a authors (Hnd & Hseq & Hdom & Hlines)] using rev_ind.
  { repeat split; try done; constructor. }
  rewrite author_loop_snoc. unfold author_step, setdefault.
  destruct (author_loop authors) as [lines m]. simpl in *.
  destruct (assoc (affiliation a) m) as [v|] eqn:Ea; simpl.
  - split; [done|]. split; [done|]. split.
    + intros affil. rewrite fmap_app, elem_of_app, Hdom. simpl.
      rewrite list_elem_of_singleton. split; [by left|].
      intros [?| ->]; [done|]. apply Hdom.
      destruct (decide (affiliation a ∈ m.*1)) as [?|Hn]; [done|].
      apply assoc_None in Hn. congruence.
    + rewrite fmap_app. simpl. by rewrite Ea, Hlines.
  - split; [|split; [|split]].
    + rewrite fmap_app. apply NoDup_app. split; [done|]. split.
      * intros k Hk Hin%list_elem_of_singleton. simpl in Hin. subst k.
        by apply assoc_None in Ea.
      * apply NoDup_singleton.
    + rewrite fmap_app, length_app, Hseq. simpl.
      replace (length m + 1) with (S (length m)) by lia.
      by rewrite seq_S.
    + intros affil. rewrite !fmap_app, !elem_of_app, Hdom. done.
    + rewrite fmap_app. simpl.
      rewrite (assoc_snoc_None _ _ _ Ea). simpl. f_equal.
      rewrite Hlines. apply list_fmap_ext. intros i a' Ha'.
      destruct (assoc (affiliation a') m) as [v'|] eqn:Ea'.
      * by rewrite (assoc_app_Some _ _ _ _ Ea').
      * apply assoc_None in Ea'. exfalso. apply Ea', Hdom.
        apply list_elem_of_fmap_2. by eapply list_elem_of_lookup_2.
Qed.

Lemma elem_of_first_occurrences (x : string) (l : list string) :
  x ∈ first_occurrences l ↔ x ∈ l.
Proof.
  induction l as [|y l IH]; simpl; [done|].
  rewrite !elem_of_cons, list_elem_of_filter, IH.
  destruct (decide (x = y)) as [->|Hne]; [by split; left|].
  split; [intros [?|[_ ?]]; [by left|by right]|intros [?|?]; [by left|by right]].
Qed.

Lemma first_occurrences_NoDup (l : list string) : NoDup (first_occurrences l).
Proof.
  induction l as [|y l IH]; simpl; [constructor|].
  apply NoDup_cons. split; [|by apply NoDup_filter].
  rewrite list_elem_of_filter. by intros [? _].
Qed.

Lemma first_occurrences_snoc (l : list string) (x : string) :
  first_occurrences (l ++ [x])
  = if decide (x ∈ l) then first_occurrences l else first_occurrences l ++ [x].
Proof.
  induction l as [|y l IH].
  - destruct (decide (x ∈ [])) as [H|]; [by apply elem_of_nil in H|done].
  - change (first_occurrences ((y :: l) ++ [x]))
      with (y :: filter (λ z, z ≠ y) (first_occurrences (l ++ [x]))).
    change (first_occurrences (y :: l))
      with (y :: filter (λ z, z ≠ y) (first_occurrences l)).
    rewrite IH. destruct (decide (x = y)) as [->|Hne].
    + rewrite (decide_True (P := y ∈ y :: l)) by apply list_elem_of_here.
      destruct (decide (y ∈ l)); [done|].
      rewrite filter_app, filter_cons_False by (by intros ?).
      by rewrite filter_nil, app_nil_r.
    + destruct (decide (x ∈ l)) as [Hin|Hin].
      * rewrite decide_True by (by apply list_elem_of_further). done.
      * rewrite decide_False by (rewrite elem_of_cons; by intros [?|?]).
        rewrite filter_app, filter_cons_True by done. done.
Qed.

Lemma author_loop_first_come (authors : list author) :
  (author_loop authors).2.*1 = first_occurrences (affiliation <$> authors).
Proof.
  induction authors as [|a authors IH] using rev_ind; [done|].
  rewrite author_loop_snoc, fmap_app, list_fmap_singleton,
    first_occurrences_snoc.
  unfold author_step, setdefault.
  destruct (author_loop authors) as [lines m]. simpl in *.
  destruct (assoc (affiliation a) m) as [v|] eqn:Ea; simpl.
  - rewrite decide_True; [done|].
    apply elem_of_first_occurrences. rewrite <-IH.
    destruct (decide (affiliation a ∈ m.*1)) as [?|Hn]; [done|].
    apply assoc_None in Hn. congruence.
  - apply assoc_None in Ea. rewrite decide_False.
    + by rewrite fmap_app, IH.
    + by rewrite <-elem_of_first_occurrences, <-IH.
Qed.

(** X5.  [format_authors] numbers the affiliations 1, 2, ... in the order
    in which they first occur in the list of authors: the keys of the
    affiliation map are the affiliations of the authors in the order of
    their first occurrence, each once, its values are 1, 2, ... in that
    order, and every author line carries the number its affiliation has
    in the map; the result is the author lines followed by one address
    line per entry of the map, or "Unknown Author" without authors. *)
Theorem format_authors_numbering (authors : list author) :
  let lines := (author_loop authors).1 in
  let affil_map := (author_loop authors).2 in
  affil_map.*1 = first_occurrences (affiliation <$> authors)
  ∧ affil_map.*2 = seq 1 (length affil_map)
  ∧ NoDup affil_map.*1
  ∧ (∀ affil, affil ∈ affil_map.*1 ↔ affil ∈ affiliation <$> authors)
  ∧ lines
    = (λ a, author_line (default 0 (assoc (affiliation a) affil_map)) a)
        <$> authors
  ∧ format_authors authors
    = match authors with
      | [] => "Unknown Author"
      | _ => join nl (lines ++ (address_line <$> affil_map))
      end.
Proof.
  intros lines affil_map. subst lines affil_map.
  destruct (author_loop_map authors) as (Hnd & Hseq & Hdom & Hlines).
  split_and!; try done.
  - apply author_loop_first_come.
  - unfold format_authors. destruct authors as [|a authors]; [done|].
    by destruct (author_loop (a :: authors)).
Qed.

Lemma format_table_complete (t : table) :
  is_Some (format_table t)
  ↔ Forall is_Some (header t) ∧ Forall (Forall is_Some) (rows t).
Proof.
  unfold format_table.
  assert (Hh : is_Some (mapM clean_cell (header t)) ↔ Forall is_Some (header t)).
  { rewrite mapM_is_Some. apply Forall_proper; [|done].
    intros c. unfold clean_cell. simpl. apply fmap_is_Some. }
  assert (Hr : is_Some (mapM (mapM clean_cell) (rows t))
               ↔ Forall (Forall is_Some) (rows t)).
  { rewrite mapM_is_Some. apply Forall_proper; [|done].
    intros row. simpl. rewrite mapM_is_Some. apply Forall_proper; [|done].
    intros c. unfold clean_cell. simpl. apply fmap_is_Some. }
  rewrite <-Hh, <-Hr.
  destruct (mapM clean_cell (header t)) as [headers|]; simpl.
  - destruct (mapM (mapM clean_cell) (rows t)) as [rows|]; simpl.
    + split; [by intros _; split|by intros _].
    + split; [by intros [? ?]|by intros [_ [? ?]]].
  - split; [by intros [? ?]|by intros [[? ?] _]].
Qed.

(** X6.  [format_table] raises exactly when a header cell or a row cell
    is missing ([None]). *)
Theorem format_table_is_Some (t : table) :
  is_Some (format_table t)
  ↔ Forall is_Some (header t) ∧ Forall (Forall is_Some) (rows t).
Proof. apply format_table_complete. Qed.

Lemma format_body_paragraphs (lines : list string) :
  format_body (Paragraph <$> lines) = Some "".
Proof.
  unfold format_body.
  assert (H : mapM format_section (Paragraph <$> lines)
              = Some (replicate (length lines) [])).
  { induction lines as [|line lines IH]; [done|].
    rewrite fmap_cons. cbn [mapM]. simpl. simpl in IH. by rewrite IH. }
  rewrite H. simpl. f_equal. clear H.
  assert (Hc : ∀ n, concat (replicate n (@nil string)) = []).
  { intros n. induction n as [|n IH]; [done|]. simpl. exact IH. }
  by rewrite Hc.
Qed.

Import Pdf.

(** X7.  Whatever a paginated document of ASCII text holds, the template
    receives its first line as title and nothing else: [format_body] skips the
    paragraphs of a body without sections, and the tables and figures of
    the result are not looked at. *)
Theorem paginated_template_data (writable : string → bool)
    (doc : list page) (c : Content) (eff : effects) :
  ascii_pages doc = true →
  extract_pdf writable doc = Some (c, eff) →
  prepare_template_data c =
    Some [("title", title (metadata c));
          ("short_title", str_take 30 (title (metadata c)));
          ("abstract", ""); ("keywords", "");
          ("author_block", "Unknown Author"); ("credit_roles", "");
          ("content", ""); ("bibliography", "");
          ("non_technical_summary", ""); ("acknowledgements", "");
          ("data_availability", ""); ("competing_interests", "");
          ("methods_content", ""); ("doi", ""); ("editor_name", "");
          ("received_date", ""); ("accepted_date", "");
          ("published_date", ""); ("year", "2025"); ("volume", "1");
          ("paper_number", "001"); ("bib_file", "references.bib")].
Proof.
  unfold extract_pdf. intros _ H.
  destruct (for_each _ _ _) as [st|]; simpl in H; [|done].
  injection H as <- <-. unfold prepare_template_data.
  cbn [body metadata]. rewrite format_body_paragraphs. done.
Qed.

Lemma paginated_template_data_witness :
  ∃ c eff,
    extract_pdf read_write [table_page] = Some (c, eff)
    ∧ tables c = [Table "Table1" [Some "h"] [[Some "cell"]]]
    ∧ prepare_template_data c =
        Some [("title", "My Title"); ("short_title", "My Title");
              ("abstract", ""); ("keywords", "");
              ("author_block", "Unknown Author"); ("credit_roles", "");
              ("content", ""); ("bibliography", "");
              ("non_technical_summary", ""); ("acknowledgements", "");
              ("data_availability", ""); ("competing_interests", "");
              ("methods_content", ""); ("doi", ""); ("editor_name", "");
              ("received_date", ""); ("accepted_date", "");
              ("published_date", ""); ("year", "2025"); ("volume", "1");
              ("paper_number", "001"); ("bib_file", "references.bib")].
Proof.
  eexists _, _. split; [reflexivity|]. split; [reflexivity|].
  exact (paginated_template_data read_write [table_page] _ _ eq_refl eq_refl).
Defined.

Lemma store_ok_alloc (h : list obj) (o : obj) :
  store_ok h → Forall leaf_ok (ocontent o) → store_ok (h ++ [o]).
Proof. intros Hh Ho. apply Forall_app. split; [done|]. by apply Forall_singleton. Qed.

Lemma store_ok_lookup (h : list obj) (l : nat) (o : obj) :
  store_ok h → h !! l = Some o → Forall leaf_ok (ocontent o).
Proof.
  intros Hh Hl.
  by apply (Forall_lookup_1 (λ o, Forall leaf_ok (ocontent o)) h l o).
Qed.

Lemma store_ok_alter (f : obj → obj) (l : nat) (h : list obj) :
  store_ok h →
  (∀ o, Forall leaf_ok (ocontent o) → Forall leaf_ok (ocontent (f o))) →
  store_ok (alter f l h).
Proof.
  intros Hh Hf. unfold store_ok. apply Forall_lookup. intros i o Hi.
  destruct (decide (l = i)) as [->|Hne].
  - rewrite list_lookup_alter_eq in Hi.
    destruct (h !! i) as [o0|] eqn:E; simplify_eq/=.
    apply Hf. by eapply store_ok_lookup.
  - rewrite list_lookup_alter_ne in Hi by done.
    by eapply store_ok_lookup.
Qed.

Lemma store_ok_push (it : item) (l : nat) (h : list obj) :
  store_ok h → leaf_ok it → store_ok (append_to l it h).
Proof.
  intros Hh Hit. apply store_ok_alter; [done|]. intros o Ho. simpl.
  apply Forall_app. split; [done|]. by apply Forall_singleton.
Qed.

Lemma add_list_item_ok (x : string) (c : list item) :
  Forall leaf_ok c → Forall leaf_ok (add_list_item x c).
Proof.
  intros Hc. unfold add_list_item.
  assert (Hl : ∀ items, leaf_ok (Leaf (ListNode items))) by (by eexists).
  destruct (last c) as [[[]|]|] eqn:E;
    try (apply Forall_app; split; [done|]; by apply Forall_singleton).
  apply last_Some in E as [c' ->]. rewrite removelast_last.
  apply Forall_app in Hc as [Hc' _].
  apply Forall_app. split; [done|]. by apply Forall_singleton.
Qed.

Lemma body_iter_store_ok (writable : string → bool)
    (rels : list relationship) (st : body_state) (para : paragraph) :
  store_ok (st_store st) →
  store_ok (st_store (body_iter writable rels st para)).
Proof.
  intros Hst. unfold body_iter.
  destruct (is_empty _); [done|].
  destruct (is_heading para).
  - destruct (_ =? 1).
    { rewrite open_section_unfold. simpl. by apply store_ok_alloc. }
    destruct (_ =? 2); [|done].
    unfold open_subsection, alloc.
    destruct (current_section st); simpl.
    + apply store_ok_push; [|done]. by apply store_ok_alloc.
    + apply store_ok_alloc; [by apply store_ok_alloc|].
      by apply Forall_singleton.
  - destruct (rmatch true re_figure _) as [m|].
    + unfold figure_paragraph.
      destruct (match first_image rels with Some _ => _ | None => _ end)
        as [[[]|] eff]; simpl; try done.
      destruct (current_subsection st), (current_section st);
        try done; (apply store_ok_push; [done|by eexists]).
    + unfold plain_paragraph, alloc.
      assert (Hf : ∀ l h, store_ok h → store_ok
        (if is_list_paragraph para (clean_text (text para))
         then alter (λ o, Obj (okind o) (oheading o)
                (add_list_item (strip (lstrip_bullets (clean_text (text para))))
                   (ocontent o))) l h
         else append_to l (Leaf (Paragraph (clean_text (text para)))) h)).
      { intros l h Hh. destruct (is_list_paragraph _ _).
        - apply store_ok_alter; [done|]. intros o. simpl. apply add_list_item_ok.
        - apply store_ok_push; [done|by eexists]. }
      destruct (current_subsection st), (current_section st); simpl;
        try (by apply Hf).
      apply Hf. by apply store_ok_alloc.
Qed.

Lemma body_pass_store_ok (writable : string → bool)
    (rels : list relationship) (paras : list paragraph) :
  store_ok (st_store (body_pass writable rels paras)).
Proof.
  unfold body_pass.
  set (st0 := BodyState [] [] None None 1 [] (Effects [] [])).
  assert (H : store_ok (st_store st0)) by constructor.
  revert H. generalize st0.
  induction paras as [|para paras IH]; intros st Hst; simpl.
  - by destruct (current_section st).
  - by apply IH, body_iter_store_ok.
Qed.

Lemma clean_row_complete (row : list string) : Forall is_Some (clean_row row).
Proof.
  unfold clean_row. apply Forall_fmap, Forall_forall. intros c _. by eexists.
Qed.

Lemma table_iter_store_ok (st : table_state) (t : list (list string)) :
  store_ok (ts_store st) → store_ok (ts_store (table_iter st t)).
Proof.
  intros Hst. unfold table_iter. destruct t as [|header_row others]; [done|].
  assert (Hok : leaf_ok (Leaf (TableNode
            (Table ("Table" +:+ str_of_nat (table_count st))
               (clean_row header_row) (clean_row <$> others))))).
  { simpl. apply format_table_complete. simpl. split.
    - apply clean_row_complete.
    - apply Forall_fmap, Forall_forall. intros row _. apply clean_row_complete. }
  destruct (last (ts_body st)); simpl.
  - by apply store_ok_push.
  - apply store_ok_alloc; [done|]. by apply Forall_singleton.
Qed.

Lemma table_pass_store_ok (h : list obj) (body : list nat)
    (tbls : list (list (list string))) :
  store_ok h → store_ok (ts_store (table_pass h body tbls)).
Proof.
  intros Hh. unfold table_pass.
  assert (H : store_ok (ts_store (TableState h body [] 1))) by done.
  revert H. generalize (TableState h body [] 1). clear Hh.
  induction tbls as [|t tbls IH]; intros st Hst; simpl; [exact Hst|].
  by apply IH, table_iter_store_ok.
Qed.

Lemma reify_printable (h : list obj) (d : nat) (it : item) :
  store_ok h → leaf_ok it → is_Some (format_content_item (reify d h it)).
Proof.
  intros Hh. revert it. induction d as [|d IH]; intros [n|l] Hit; try done.
  rewrite reify_ref. destruct (h !! l) as [o|] eqn:E; [|done].
  destruct (okind o); [done|]. cbn [format_content_item].
  assert (Hm : is_Some (mapM format_content_item (reify d h <$> ocontent o))).
  { apply mapM_is_Some, Forall_fmap, Forall_forall. intros it Hin.
    change (is_Some (format_content_item (reify d h it))).
    apply IH. eapply Forall_forall; [|exact Hin].
    by eapply store_ok_lookup. }
  destruct Hm as [subs ->]. done.
Qed.

(** X8.  The result of a styled extraction always renders: its tables
    have no missing cell, so [prepare_template_data] does not raise. *)
Theorem styled_body_renders (writable : string → bool) (doc : document) :
  is_Some (prepare_template_data (extract_docx writable doc).1).
Proof.
  unfold prepare_template_data, extract_docx. cbv zeta. cbn [fst body].
  set (ts := table_pass _ _ _).
  assert (Hh : store_ok (ts_store ts)).
  { apply table_pass_store_ok, body_pass_store_ok. }
  assert (Hb : is_Some (format_body (reify_body (ts_store ts) (ts_body ts)))).
  { unfold format_body, reify_body.
    assert (Hm : is_Some (mapM format_section
                            ((λ l, reify 2 (ts_store ts) (Ref l)) <$> ts_body ts))).
    { apply mapM_is_Some, Forall_fmap, Forall_forall. intros l _.
      change (is_Some (format_section (reify 2 (ts_store ts) (Ref l)))).
      rewrite reify_ref. destruct (ts_store ts !! l) as [o|] eqn:E; [|done].
      destruct (okind o); [|done]. cbn [format_section].
      assert (Hi : is_Some (mapM format_content_item
                              (reify 1 (ts_store ts) <$> ocontent o))).
      { apply mapM_is_Some, Forall_fmap, Forall_forall. intros it Hin.
        change (is_Some (format_content_item (reify 1 (ts_store ts) it))).
        apply reify_printable; [done|]. eapply Forall_forall; [|exact Hin].
        by eapply store_ok_lookup. }
      destruct Hi as [items ->]. done. }
    destruct Hm as [latex ->]. done. }
  destruct Hb as [content ->]. done.
Qed.

End Rendering.

Section StyledResult.
Import Text Re Docx Outline Samples LatexConverter Formatter Notions.

Lemma collect_refs_ids (n : nat) (paras : list paragraph) :
  ref_id <$> collect_refs n paras
  = str_of_nat <$> seq n (length (collect_refs n paras)).
Proof.
  revert n. induction paras as [|para paras IH]; intros n; simpl; [done|].
  destruct (is_empty _); [apply IH|].
  destruct (is_heading para); [done|].
  simpl. f_equal. rewrite IH. by replace (n + 1) with (S n) by lia.
Qed.

Lemma collect_refs_citations (n : nat) (paras : list paragraph) :
  Forall (λ r, citation r ≠ "") (collect_refs n paras).
Proof.
  revert n. induction paras as [|para paras IH]; intros n; simpl; [done|].
  destruct (is_empty _) eqn:E; [apply IH|].
  destruct (is_heading para); [done|].
  apply Forall_cons. split; [|apply IH]. simpl.
  intros Heq. by rewrite Heq in E.
Qed.

(** X9.  The reference ids of a styled extraction are 1, 2, ..., n in
    reading order, and no citation is empty. *)
Theorem reference_ids_dense (writable : string → bool) (doc : document) :
  ref_id <$> references (extract_docx writable doc).1
  = str_of_nat <$> seq 1 (length (references (extract_docx writable doc).1))
  ∧ Forall (λ r, citation r ≠ "") (references (extract_docx writable doc).1).
Proof.
  unfold extract_docx. cbn [fst references]. unfold reference_pass.
  destruct (find_ref_section 0 (doc_paragraphs doc)) as [[|j]|];
    try (split; [done|constructor]).
  split; [apply collect_refs_ids|apply collect_refs_citations].
Qed.

Lemma table_fold_tables (tbls : list (list (list string))) (st : table_state) :
  ts_tables (foldl table_iter st tbls)
  = ts_tables st
    ++ imap (λ i t, table_of (table_count st + i) t) (filter (λ t, t ≠ []) tbls)
  ∧ table_count (foldl table_iter st tbls)
    = table_count st + length (filter (λ t, t ≠ []) tbls).
Proof.
  revert st. induction tbls as [|t tbls IH]; intros st.
  - simpl. by rewrite app_nil_r, Nat.add_0_r.
  - simpl foldl. destruct (IH (table_iter st t)) as [IH1 IH2].
    rewrite IH1, IH2. unfold table_iter.
    destruct t as [|header_row others].
    + rewrite filter_cons_False by (by intros ?). done.
    + rewrite filter_cons_True by done.
      destruct (last (ts_body st)); simpl.
      * rewrite <-app_assoc. simpl. rewrite Nat.add_0_r. split; [|lia].
        f_equal. f_equal. apply imap_ext. intros i x _. simpl.
        f_equal. lia.
      * rewrite <-app_assoc. simpl. rewrite Nat.add_0_r. split; [|lia].
        f_equal. f_equal. apply imap_ext. intros i x _. simpl.
        f_equal. lia.
Qed.

(** X10.  With cells of ASCII text, the tables of a styled extraction are
    the styled tables that have a
    row, in order, labelled Table1, Table2, ...; the first row is the
    header, the others are the rows. *)
Theorem styled_tables (writable : string → bool) (doc : document) :
  ascii_tables (doc_tables doc) = true →
  tables (extract_docx writable doc).1
  = imap (λ i t, table_of (i + 1) t) (filter (λ t, t ≠ []) (doc_tables doc)).
Proof.
  intros _. unfold extract_docx. cbn [fst tables]. unfold table_pass.
  destruct (table_fold_tables (doc_tables doc)
    (TableState (st_store (body_pass writable (doc_rels doc)
                   (f_rest (front_matter (doc_paragraphs doc)))))
       (st_body (body_pass writable (doc_rels doc)
                   (f_rest (front_matter (doc_paragraphs doc))))) [] 1))
    as [H _].
  rewrite H. simpl. apply imap_ext. intros i x _. simpl. f_equal. lia.
Qed.

Lemma styled_tables_witness :
  tables (extract_docx read_write one_table).1
  = [Table "Table1" [Some "a"; Some "b"] [[Some "1"; Some "2"]]].
Proof. exact (styled_tables read_write one_table eq_refl). Defined.

Lemma str_of_nat_inj (n m : nat) : str_of_nat n = str_of_nat m → n = m.
Proof.
  unfold str_of_nat. intros H. apply Unsigned.to_uint_inj.
  apply (f_equal NilEmpty.uint_of_string) in H.
  rewrite !NilEmpty.usu in H. congruence.
Qed.

Lemma str_length_app (a b : string) :
  String.length (a +:+ b) = String.length a + String.length b.
Proof. induction a as [|c a IH]; [done|]. simpl. by rewrite <-IH. Qed.

Lemma str_app_inj_r (a b c : string) : a +:+ c = b +:+ c → a = b.
Proof.
  revert b. induction a as [|x a IH]; intros [|y b] H.
  - done.
  - apply (f_equal String.length) in H.
    rewrite !str_length_app in H. simpl in H. lia.
  - apply (f_equal String.length) in H.
    rewrite !str_length_app in H. simpl in H. lia.
  - change (String x (a +:+ c) = String y (b +:+ c)) in H.
    injection H as -> H. f_equal. by apply IH.
Qed.

Lemma figure_path_inj (ext : string) (i j : nat) :
  figure_path ext i = figure_path ext j → i = j.
Proof.
  unfold figure_path, path_join. intros H.
  do 3 apply String.app_inj in H.
  by apply str_app_inj_r, str_of_nat_inj in H.
Qed.

Lemma body_iter_figures (writable : string → bool) (rels : list relationship)
    (st : body_state) (para : paragraph) :
  let P st :=
    fig_count st = length (st_figures st) + 1
    ∧ figure_id_path <$> st_figures st
      = (λ i, ("fig_" +:+ str_of_nat i, figure_path (first_ext rels) i))
          <$> seq 1 (length (st_figures st))
    ∧ (files (st_eff st)).*1
      = figure_path (first_ext rels) <$> seq 1 (length (st_figures st)) in
  P st → P (body_iter writable rels st para).
Proof.
  intros P Hst. unfold body_iter.
  destruct (is_empty _); [done|].
  destruct (is_heading para).
  - destruct (_ =? 1).
    { rewrite open_section_unfold. exact Hst. }
    destruct (_ =? 2); [|done].
    unfold open_subsection, alloc. by destruct (current_section st).
  - destruct (rmatch true re_figure _) as [m|].
    + unfold figure_paragraph, first_ext in *. unfold P in *.
      destruct Hst as (Hc & Hf & Hfiles).
      destruct (first_image rels) as [rel|] eqn:Erel; [|done].
      unfold save_image.
      destruct (pil_format (target_part rel)) as [format|]; [|done].
      match goal with |- context [writable ?p] => destruct (writable p) end;
        [|done].
      cbn [st_figures st_eff fig_count files fst snd].
      rewrite !length_app, !fmap_app, Hf, Hfiles. simpl length.
      replace (length (st_figures st) + 1) with (S (length (st_figures st)))
        by lia.
      rewrite !seq_S, !fmap_app, Hc. simpl.
      replace (length (st_figures st) + 1) with (S (length (st_figures st)))
        by lia.
      split; [lia|]. split; done.
    + unfold plain_paragraph.
      by destruct (current_subsection st), (current_section st).
Qed.

(** X11.  The figures of a styled extraction are numbered fig_1, fig_2, ...
    and each has a file of its own: the files written are
    figure_1, figure_2, ... with one extension, so no file is written
    twice. *)
Theorem styled_figures_numbered (writable : string → bool) (doc : document) :
  let figs := figures (metadata (extract_docx writable doc).1) in
  let ext := first_ext (doc_rels doc) in
  figure_id_path <$> figs
  = (λ i, ("fig_" +:+ str_of_nat i, figure_path ext i)) <$> seq 1 (length figs)
  ∧ (files (extract_docx writable doc).2).*1
    = figure_path ext <$> seq 1 (length figs)
  ∧ NoDup (files (extract_docx writable doc).2).*1.
Proof.
  cbv zeta. unfold extract_docx. cbn [fst snd metadata figures].
  unfold body_pass.
  set (st0 := BodyState [] [] None None 1 [] (Effects [] [])).
  set (paras := f_rest _).
  assert (H : fig_count st0 = length (Docx.st_figures st0) + 1
    ∧ figure_id_path <$> Docx.st_figures st0
      = (λ i, ("fig_" +:+ str_of_nat i,
               figure_path (first_ext (doc_rels doc)) i))
          <$> seq 1 (length (Docx.st_figures st0))
    ∧ (files (Docx.st_eff st0)).*1
      = figure_path (first_ext (doc_rels doc))
          <$> seq 1 (length (Docx.st_figures st0))) by done.
  revert H. generalize st0.
  induction paras as [|para paras IH]; intros st Hst.
  - simpl foldl. destruct Hst as (_ & Hf & Hfiles).
    assert (Hn : NoDup (files (Docx.st_eff st)).*1).
    { rewrite Hfiles. apply NoDup_fmap_2; [|apply NoDup_seq].
      intros i j. apply figure_path_inj. }
    by destruct (current_section st).
  - simpl foldl. apply IH. by apply body_iter_figures.
Qed.

End StyledResult.

Section PaginatedResult.
Import Text Re Pdf Samples LatexConverter Formatter Notions.

Lemma for_each_invariant {S X : Type} (P : S → Prop) (f : S → X → option S)
    (l : list X) (st st' : S) :
  P st →
  (∀ s x s', x ∈ l → P s → f s x = Some s' → P s') →
  for_each f st l = Some st' → P st'.
Proof.
  revert st. induction l as [|x l IH]; intros st Hst Hstep; simpl.
  - by intros [= <-].
  - destruct (f st x) as [s1|] eqn:E; simpl; [|done].
    apply IH.
    + eapply Hstep; [apply list_elem_of_here|done|done].
    + intros s y s' Hy. apply Hstep. by apply list_elem_of_further.
Qed.

Lemma for_each_is_Some {S X : Type} (f : S → X → option S)
    (l : list X) (st : S) :
  (∀ s x, x ∈ l → is_Some (f s x)) → is_Some (for_each f st l).
Proof.
  revert st. induction l as [|x l IH]; intros st Hstep; simpl; [done|].
  destruct (Hstep st x) as [s1 ->]; [apply list_elem_of_here|]. simpl.
  apply IH. intros s y Hy. apply Hstep. by apply list_elem_of_further.
Qed.

Lemma insert_sorted_elem {A} (key : A → Q) (x y : A) (l : list A) :
  y ∈ insert_sorted key x l → y = x ∨ y ∈ l.
Proof.
  induction l as [|z l IH]; simpl.
  - intros ->%list_elem_of_singleton. by left.
  - destruct (Qle_bool _ _).
    + intros [->|H]%elem_of_cons.
      * right. apply list_elem_of_here.
      * destruct (IH H) as [->|?]; [by left|right].
        by apply list_elem_of_further.
    + intros [->|H]%elem_of_cons; [by left|by right].
Qed.

Lemma sort_by_elem {A} (key : A → Q) (y : A) (l : list A) :
  y ∈ sort_by key l → y ∈ l.
Proof.
  unfold sort_by.
  assert (H : ∀ acc, y ∈ foldl (λ acc x, insert_sorted key x acc) acc l →
                     y ∈ acc ∨ y ∈ l).
  { induction l as [|x l IH]; intros acc; simpl; [by left|].
    intros [Hin|Hin]%IH.
    - apply insert_sorted_elem in Hin as [->|?]; [right|by left].
      apply list_elem_of_here.
    - right. by apply list_elem_of_further. }
  intros [Hin|Hin]%H; [|done]. by apply elem_of_nil in Hin.
Qed.

Lemma combine_tables (tables : list found_table) (blocks : list block)
    (y : Q) (idx : nat) (tbl : found_table) :
  CTable y idx tbl ∈ Pdf.combine tables blocks → tables !! idx = Some tbl.
Proof.
  unfold Pdf.combine. intros Hin%sort_by_elem.
  apply elem_of_app in Hin as [Hin|Hin].
  - apply list_elem_of_lookup in Hin as [i Hi].
    rewrite list_lookup_imap in Hi.
    destruct (tables !! i) as [t|] eqn:E; simplify_eq/=. done.
  - apply list_elem_of_fmap in Hin as (b & Hb & _). done.
Qed.

Lemma text_item_is_Some (writable : string → bool)
    (tables : list found_table) (images_info : list (string * string))
    (b : block) (st : pdf_state) :
  (∀ path, writable path = true) →
  is_Some (text_item writable tables images_info b st).
Proof.
  intros Hw. unfold text_item.
  destruct (block_type b =? 0); [|done].
  destruct (_ || _); [done|].
  destruct (email_split _); [done|].
  match goal with |- context [if ?c then _ else _] => destruct c end; [|done].
  unfold caption_line.
  destruct (first_unused _); [|done].
  destruct (default _ _) as [bytes ext]. unfold write_file.
  by rewrite Hw.
Qed.

(** X12.  With an image directory that takes every write, images that
    can all be extracted and tables that give their data, the paginated
    extraction returns. *)
Theorem extract_pdf_succeeds (writable : string → bool) (doc : list page) :
  (∀ path, writable path = true) →
  Forall page_readable doc →
  is_Some (extract_pdf writable doc).
Proof.
  intros Hw Hdoc. unfold extract_pdf.
  assert (H : is_Some (for_each (page_iter writable)
                         (PdfState [] [] [] ∅ [] (Effects [] []))
                         (imap (λ i page, (i + 1, page)) doc))).
  { apply for_each_is_Some. intros st [page_num pg] Hin.
    apply list_elem_of_lookup in Hin as [i Hi].
    rewrite list_lookup_imap in Hi.
    destruct (doc !! i) as [pg'|] eqn:E; simplify_eq/=.
    destruct (Forall_lookup_1 _ _ _ _ Hdoc E) as [Him Htb].
    apply (mapM_is_Some_2 extract_image) in Him as [images_info Him].
    unfold page_iter. cbv [mbind]. rewrite Him. simpl.
    match goal with |- context [for_each ?f ?s ?l] =>
      destruct (for_each_is_Some f l s) as [st1 ->] end.
    { intros s [y idx tbl|y b] Hin; simpl.
      - apply combine_tables in Hin.
        unfold table_item. case_decide; [|done].
        destruct (Forall_lookup_1 _ _ _ _ Htb Hin) as [[d ->]|[d Hd]]; [done|].
        rewrite Hd. by destruct (extract tbl).
      - by apply text_item_is_Some. }
    simpl. apply for_each_is_Some. intros s [idx used] _.
    unfold leftover_image. destruct used; [done|].
    destruct (default _ _) as [bytes ext]. unfold write_file.
    by rewrite Hw. }
  destruct H as [st ->]. done.
Qed.

Lemma extract_pdf_succeeds_witness :
  is_Some (extract_pdf read_write [table_page; image_page]).
Proof.
  apply extract_pdf_succeeds; [reflexivity|].
  repeat constructor; simpl; eauto.
Defined.

Lemma fmap_seq_snoc {A} (f : nat → A) (n : nat) :
  (f <$> seq 1 n) ++ [f (S n)] = f <$> seq 1 (S n).
Proof. by rewrite seq_S, fmap_app. Qed.

Lemma labels_dense_figure (figs : list figure_entry) (tbls : list table)
    (caption content : string) :
  labels_dense figs tbls →
  labels_dense (figs ++ [FigureDict (fig_label figs) caption content]) tbls.
Proof.
  intros [Hf Ht]. split; [|done].
  rewrite !fmap_app, Hf, length_app. simpl.
  unfold fig_label. rewrite !Nat.add_1_r. apply (fmap_seq_snoc (λ i, "Fig" +:+ str_of_nat i)).
Qed.

Lemma item_iter_labels (writable : string → bool)
    (tables : list found_table) (images_info : list (string * string))
    (s s' : pdf_state) (it : combined_item) :
  labels_dense (st_figures s) (st_tables s) →
  item_iter writable tables images_info s it = Some s' →
  labels_dense (st_figures s') (st_tables s').
Proof.
  intros Hs. destruct it as [y idx tbl|y b]; simpl.
  - unfold table_item. case_decide; [|by intros [= <-]].
    destruct (match extract tbl with Some _ => _ | None => _ end)
      as [[|head others]|]; simpl; intros [= <-]; simpl; [done|].
    destruct Hs as [Hf Ht]. split; [done|].
    rewrite !fmap_app, Ht, length_app. simpl.
    rewrite ?Nat.add_1_r. apply (fmap_seq_snoc (λ i, "Table" +:+ str_of_nat i)).
  - unfold text_item.
    destruct (block_type b =? 0); [|by intros [= <-]].
    destruct (_ || _); [by intros [= <-]|].
    destruct (email_split _); [by intros [= <-]|].
    match goal with |- context [if ?c then _ else _] => destruct c end;
      [|by intros [= <-]].
    unfold caption_line.
    destruct (first_unused _); [|by intros [= <-]].
    destruct (default _ _) as [bytes ext].
    destruct (write_file _ _ _ _); simpl; intros [= <-]; simpl.
    by apply labels_dense_figure.
Qed.

Lemma leftover_labels (writable : string → bool) (page_num : nat)
    (images_info : list (string * string)) (s s' : pdf_state)
    (entry : nat * bool) :
  labels_dense (st_figures s) (st_tables s) →
  leftover_image writable page_num images_info s entry = Some s' →
  labels_dense (st_figures s') (st_tables s').
Proof.
  intros Hs. unfold leftover_image. destruct entry as [idx []].
  - by intros [= <-].
  - destruct (default _ _) as [bytes ext].
    destruct (write_file _ _ _ _); simpl; intros [= <-]; simpl.
    by apply labels_dense_figure.
Qed.

Lemma page_iter_labels (writable : string → bool) (s s' : pdf_state)
    (entry : nat * page) :
  labels_dense (st_figures s) (st_tables s) →
  page_iter writable s entry = Some s' →
  labels_dense (st_figures s') (st_tables s').
Proof.
  intros Hs. destruct entry as [page_num pg]. unfold page_iter. cbv [mbind].
  destruct (mapM extract_image (get_images pg)) as [images_info|]; [|done].
  simpl.
  match goal with |- context [for_each ?f ?s0 ?l] =>
    destruct (for_each f s0 l) as [s1|] eqn:E1 end; [|done].
  simpl. intros E2.
  eapply (for_each_invariant
            (λ s, labels_dense (st_figures s) (st_tables s))); [| |exact E2].
  - eapply (for_each_invariant
              (λ s, labels_dense (st_figures s) (st_tables s)));
      [| |exact E1]; [done|].
    intros ? ? ? _. apply item_iter_labels.
  - intros ? ? ? _. apply leftover_labels.
Qed.

(** X13.  The figures of a paginated extraction are labelled Fig1, Fig2, ...
    and its tables Table1, Table2, ..., across pages. *)
Theorem paginated_labels (writable : string → bool) (doc : list page)
    (c : Content) (eff : effects) :
  extract_pdf writable doc = Some (c, eff) →
  labels_dense (figures (metadata c)) (tables c).
Proof.
  unfold extract_pdf. cbv [mbind].
  match goal with |- context [for_each ?f ?s0 ?l] =>
    destruct (for_each f s0 l) as [st|] eqn:E end; [|done].
  simpl. intros [= <- _]. simpl.
  eapply (for_each_invariant
            (λ s, labels_dense (st_figures s) (st_tables s))); [| |exact E].
  - done.
  - intros ? ? ? _. apply page_iter_labels.
Qed.

Lemma paginated_labels_witness :
  ∃ c eff,
    extract_pdf read_write [table_page; image_page] = Some (c, eff)
    ∧ length (figures (metadata c)) = 1
    ∧ labels_dense (figures (metadata c)) (tables c).
Proof.
  eexists _, _. split; [reflexivity|]. split; [reflexivity|].
  exact (paginated_labels read_write [table_page; image_page] _ _ eq_refl).
Defined.

Lemma count_used_unused (used : list bool) :
  count_used used + count_unused used = length used.
Proof.
  unfold count_used, count_unused.
  induction used as [|[] used IH]; [done| |].
  - rewrite filter_cons_True, filter_cons_False by done. simpl. lia.
  - rewrite filter_cons_False, filter_cons_True by done. simpl. lia.
Qed.

Lemma count_used_replicate (n : nat) : count_used (replicate n false) = 0.
Proof.
  unfold count_used. induction n as [|n IH]; [done|]. simpl.
  by rewrite filter_cons_False.
Qed.

Lemma count_used_insert (used : list bool) (idx : nat) :
  used !! idx = Some false →
  count_used (<[idx := true]> used) = S (count_used used).
Proof.
  unfold count_used. revert idx.
  induction used as [|u used IH]; intros [|idx] H; simplify_eq/=.
  - by rewrite filter_cons_False.
  - specialize (IH idx H). destruct u.
    + rewrite !filter_cons_True by done. simpl. by rewrite IH.
    + rewrite !filter_cons_False by done. by rewrite IH.
Qed.

Lemma first_unused_lookup (used : list bool) (idx : nat) :
  first_unused used = Some idx → used !! idx = Some false.
Proof.
  unfold first_unused. intros H.
  destruct (list_find _ used) as [[i u]|] eqn:E; simplify_eq/=.
  apply list_find_Some in E as (Hi & -> & _). done.
Qed.

(** The state of one page: what the captions read so far have added. *)
Lemma item_iter_counts (writable : string → bool)
    (tables : list found_table) (images_info : list (string * string))
    (nf ne : nat) (s s' : pdf_state) (it : combined_item) :
  let P s :=
    length (image_used s) = length images_info
    ∧ length (st_figures s) = nf + count_used (image_used s)
    ∧ length (files (st_eff s)) = ne + count_used (image_used s) in
  P s → item_iter writable tables images_info s it = Some s' → P s'.
Proof.
  intros P Hs. destruct it as [y idx tbl|y b]; simpl.
  - unfold table_item. case_decide; [|by intros [= <-]].
    destruct (match extract tbl with Some _ => _ | None => _ end)
      as [[|head others]|]; simpl; by intros [= <-].
  - unfold text_item.
    destruct (block_type b =? 0); [|by intros [= <-]].
    destruct (_ || _); [by intros [= <-]|].
    destruct (email_split _); [by intros [= <-]|].
    match goal with |- context [if ?c then _ else _] => destruct c end;
      [|by intros [= <-]].
    unfold caption_line.
    destruct (first_unused _) as [idx|] eqn:E; [|by intros [= <-]].
    apply first_unused_lookup in E.
    destruct (default _ _) as [bytes ext]. unfold write_file.
    destruct (writable _); simpl; intros [= <-]. unfold P in *. simpl.
    destruct Hs as (Hl & Hf & He).
    rewrite length_insert, !length_app, count_used_insert, Hf, He by done.
    simpl. repeat split; [done|lia|lia].
Qed.

Lemma leftover_image_count (writable : string → bool) (page_num : nat)
    (images_info : list (string * string)) (entry : nat * bool)
    (s s' : pdf_state) :
  leftover_image writable page_num images_info s entry = Some s' →
  length (st_figures s')
  = length (st_figures s) + (if entry.2 then 0 else 1)
  ∧ length (files (st_eff s'))
    = length (files (st_eff s)) + (if entry.2 then 0 else 1).
Proof.
  unfold leftover_image. destruct entry as [idx []]; simpl.
  - intros [= <-]. lia.
  - destruct (default ("", "") (images_info !! idx)) as [bytes ext].
    unfold write_file.
    match goal with |- context [writable ?p] => destruct (writable p) end;
      simpl; [|done].
    intros [= <-]. simpl. rewrite !length_app. simpl. lia.
Qed.

Lemma leftover_counts (writable : string → bool) (page_num : nat)
    (images_info : list (string * string)) (entries : list (nat * bool))
    (s s' : pdf_state) :
  for_each (leftover_image writable page_num images_info) s entries = Some s' →
  length (st_figures s') = length (st_figures s) + count_unused entries.*2
  ∧ length (files (st_eff s'))
    = length (files (st_eff s)) + count_unused entries.*2.
Proof.
  unfold count_unused. revert s.
  induction entries as [|[idx used] entries IH]; intros s.
  - simpl. intros [= <-]. lia.
  - rewrite fmap_cons. cbn [for_each].
    destruct (leftover_image writable page_num images_info s (idx, used))
      as [s1|] eqn:E; [|done].
    cbn [mbind option_bind]. intros [H1 H2]%IH.
    apply leftover_image_count in E as [E1 E2]. cbn [snd] in *.
    destruct used.
    + rewrite filter_cons_False by done. lia.
    + rewrite filter_cons_True by done. simpl. lia.
Qed.

Lemma page_iter_counts (writable : string → bool) (s s' : pdf_state)
    (entry : nat * page) :
  page_iter writable s entry = Some s' →
  length (st_figures s') = length (st_figures s) + length (get_images entry.2)
  ∧ length (files (st_eff s'))
    = length (files (st_eff s)) + length (get_images entry.2).
Proof.
  destruct entry as [page_num pg]. unfold page_iter. cbv [mbind].
  destruct (mapM extract_image (get_images pg)) as [images_info|] eqn:Ei;
    [|done].
  apply length_mapM in Ei. simpl.
  match goal with |- context [for_each ?f ?s0 ?l] =>
    destruct (for_each f s0 l) as [s1|] eqn:E1 end; [|done].
  simpl. intros E2.
  eapply (for_each_invariant
    (λ s0, length (image_used s0) = length images_info
           ∧ length (st_figures s0)
             = length (st_figures s) + count_used (image_used s0)
           ∧ length (files (st_eff s0))
             = length (files (st_eff s)) + count_used (image_used s0)))
    in E1 as (Hl & Hf & He).
  - apply leftover_counts in E2 as [H1 H2].
    assert (Hsnd : (imap (λ (idx : nat) (used : bool), (idx, used))
                      (image_used s1)).*2 = image_used s1).
    { generalize (image_used s1). intros l.
      apply list_eq. intros i. rewrite list_lookup_fmap, list_lookup_imap.
      by destruct (l !! i). }
    rewrite Hsnd in H1, H2.
    pose proof (count_used_unused (image_used s1)). lia.
  - simpl. rewrite length_replicate, count_used_replicate. lia.
  - intros s0 x s0' _. apply item_iter_counts.
Qed.

Lemma pages_counts (writable : string → bool) (entries : list (nat * page))
    (s s' : pdf_state) :
  for_each (page_iter writable) s entries = Some s' →
  length (st_figures s')
  = length (st_figures s) + sum_list (length ∘ get_images <$> entries.*2)
  ∧ length (files (st_eff s'))
    = length (files (st_eff s)) + sum_list (length ∘ get_images <$> entries.*2).
Proof.
  revert s. induction entries as [|entry entries IH]; intros s.
  - simpl. intros [= <-]. lia.
  - cbn [for_each].
    destruct (page_iter writable s entry) as [s1|] eqn:E; [|done].
    cbn [mbind option_bind].
    apply page_iter_counts in E as [H1 H2].
    intros [H3 H4]%IH. rewrite !fmap_cons.
    change (sum_list ((length ∘ get_images) entry.2
                      :: (length ∘ get_images <$> entries.*2)))
      with (length (get_images entry.2)
            + sum_list (length ∘ get_images <$> entries.*2)).
    lia.
Qed.

Lemma marked_replicate (n : nat) (images_info : list (string * string)) :
  marked true (replicate n false) images_info = [].
Proof.
  revert images_info. induction n as [|n IH]; intros [|x info]; simpl; try done.
Qed.

Lemma marked_insert (used : list bool) (images_info : list (string * string))
    (idx : nat) (info : string * string) :
  used !! idx = Some false → images_info !! idx = Some info →
  marked true (<[idx := true]> used) images_info
  ≡ₚ info.1 :: marked true used images_info.
Proof.
  revert idx images_info.
  induction used as [|u used IH]; intros [|idx] [|x images_info] Hu Hi;
    simplify_eq/=; [done|].
  rewrite (IH idx images_info) by done.
  destruct (bool_decide (u = true)); simpl; [|done]. apply Permutation_swap.
Qed.

Lemma marked_all (used : list bool) (images_info : list (string * string)) :
  length used = length images_info →
  marked true used images_info ++ marked false used images_info
  ≡ₚ images_info.*1.
Proof.
  revert images_info.
  induction used as [|u used IH]; intros [|x images_info] Hl;
    simplify_eq/=; [done|].
  specialize (IH images_info Hl). destruct u; simpl.
  - by rewrite IH.
  - rewrite <-Permutation_middle. by rewrite IH.
Qed.

Lemma image_bytes_info (pg : page) (images_info : list (string * string)) :
  mapM extract_image (get_images pg) = Some images_info →
  image_bytes pg = images_info.*1.
Proof.
  unfold image_bytes. intros H. apply mapM_Some in H.
  induction H as [|im info imgs infos Him _ IH]; [done|].
  cbn [omap list_omap]. rewrite Him. cbn [fmap option_fmap option_map].
  rewrite fmap_cons. f_equal. exact IH.
Qed.

(** What the items of one page keep true: a file has been written for
    each image marked as used, and figures and files go together. *)
Lemma item_iter_bytes (writable : string → bool)
    (tables : list found_table) (images_info : list (string * string))
    (before : list string) (s s' : pdf_state) (it : combined_item) :
  let P s :=
    length (image_used s) = length images_info
    ∧ (figure_id_path <$> st_figures s).*2 = (files (st_eff s)).*1
    ∧ (files (st_eff s)).*2
      ≡ₚ before ++ marked true (image_used s) images_info in
  P s → item_iter writable tables images_info s it = Some s' → P s'.
Proof.
  intros P Hs. destruct it as [y idx tbl|y b]; simpl.
  - unfold table_item. case_decide; [|by intros [= <-]].
    destruct (match extract tbl with Some _ => _ | None => _ end)
      as [[|head others]|]; simpl; by intros [= <-].
  - unfold text_item.
    destruct (block_type b =? 0); [|by intros [= <-]].
    destruct (_ || _); [by intros [= <-]|].
    destruct (email_split _); [by intros [= <-]|].
    match goal with |- context [if ?c then _ else _] => destruct c end;
      [|by intros [= <-]].
    unfold caption_line.
    destruct (first_unused _) as [idx|] eqn:E; [|by intros [= <-]].
    apply first_unused_lookup in E.
    destruct Hs as (Hl & Hf & He).
    destruct (images_info !! idx) as [[bytes ext]|] eqn:Ei.
    2:{ apply lookup_lt_Some in E. apply lookup_ge_None in Ei. lia. }
    cbv [default from_option id]. unfold write_file.
    match goal with |- context [writable ?p] => destruct (writable p) end;
      simpl; intros [= <-]. unfold P. simpl.
    rewrite length_insert, !fmap_app, Hf, He. simpl.
    split_and!; [done|done|].
    rewrite (marked_insert _ _ _ _ E Ei). simpl.
    etrans; [|apply Permutation_middle].
    symmetry. apply Permutation_cons_append.
Qed.

Lemma leftover_image_bytes (writable : string → bool) (page_num : nat)
    (images_info : list (string * string)) (idx : nat) (u : bool)
    (info : string * string) (s s' : pdf_state) :
  images_info !! idx = Some info →
  leftover_image writable page_num images_info s (idx, u) = Some s' →
  (figure_id_path <$> st_figures s).*2 = (files (st_eff s)).*1 →
  (figure_id_path <$> st_figures s').*2 = (files (st_eff s')).*1
  ∧ (files (st_eff s')).*2
    = (files (st_eff s)).*2 ++ (if bool_decide (u = false) then [info.1] else []).
Proof.
  intros Ei. unfold leftover_image. rewrite Ei. destruct info as [bytes ext].
  cbv [default from_option id]. destruct u.
  - intros [= <-] Hf. split; [done|]. by rewrite app_nil_r.
  - unfold write_file.
    match goal with |- context [writable ?p] => destruct (writable p) end;
      [|done].
    cbn [mbind option_bind]. intros [= <-] Hf. simpl.
    rewrite !fmap_app, Hf. done.
Qed.

Lemma leftover_bytes (writable : string → bool) (page_num : nat)
    (images_info : list (string * string)) (used : list bool) (k : nat)
    (s s' : pdf_state) :
  k + length used ≤ length images_info →
  for_each (leftover_image writable page_num images_info) s
    (imap (λ i u, (k + i, u)) used) = Some s' →
  (figure_id_path <$> st_figures s).*2 = (files (st_eff s)).*1 →
  (figure_id_path <$> st_figures s').*2 = (files (st_eff s')).*1
  ∧ (files (st_eff s')).*2
    = (files (st_eff s)).*2 ++ marked false used (drop k images_info).
Proof.
  revert k s. induction used as [|u used IH]; intros k s Hk.
  - simpl. intros [= <-] Hf. split; [done|]. by rewrite app_nil_r.
  - rewrite imap_cons. cbn [for_each]. simpl in Hk.
    destruct (images_info !! k) as [info|] eqn:Ei.
    2:{ apply lookup_ge_None in Ei. lia. }
    rewrite (drop_S _ _ _ Ei). cbn [marked].
    rewrite (imap_ext _ (λ i u0, (S k + i, u0))).
    2:{ intros i u0 _. simpl. f_equal. lia. }
    rewrite Nat.add_0_r.
    destruct (leftover_image writable page_num images_info s (k, u))
      as [s1|] eqn:E1; [|done].
    cbn [mbind option_bind]. intros E Hf.
    apply (leftover_image_bytes _ _ _ _ _ info) in E1 as [H1 H2]; [|done|done].
    apply IH in E as [H3 H4]; [|lia|done].
    split; [done|]. by rewrite H4, H2, <-app_assoc.
Qed.

Lemma page_iter_bytes (writable : string → bool) (s s' : pdf_state)
    (entry : nat * page) :
  page_iter writable s entry = Some s' →
  (figure_id_path <$> st_figures s).*2 = (files (st_eff s)).*1 →
  (figure_id_path <$> st_figures s').*2 = (files (st_eff s')).*1
  ∧ (files (st_eff s')).*2 ≡ₚ (files (st_eff s)).*2 ++ image_bytes entry.2.
Proof.
  destruct entry as [page_num pg]. unfold page_iter. cbv [mbind].
  destruct (mapM extract_image (get_images pg)) as [images_info|] eqn:Ei;
    [|done].
  apply image_bytes_info in Ei. simpl.
  match goal with |- context [for_each ?f ?s0 ?l] =>
    destruct (for_each f s0 l) as [s1|] eqn:E1 end; [|done].
  simpl. intros E2 Hf.
  eapply (for_each_invariant
    (λ s0, length (image_used s0) = length images_info
           ∧ (figure_id_path <$> st_figures s0).*2 = (files (st_eff s0)).*1
           ∧ (files (st_eff s0)).*2
             ≡ₚ (files (st_eff s)).*2
                ++ marked true (image_used s0) images_info))
    in E1 as (Hl & Hf1 & He).
  - apply (leftover_bytes _ _ _ _ 0) in E2 as [H1 H2]; [|simpl; lia|done].
    split; [done|]. rewrite H2, He, Ei, drop_0, <-app_assoc.
    by rewrite marked_all.
  - simpl. rewrite length_replicate, marked_replicate, app_nil_r. done.
  - intros s0 x s0' _. apply item_iter_bytes.
Qed.

Lemma pages_bytes (writable : string → bool) (entries : list (nat * page))
    (s s' : pdf_state) :
  for_each (page_iter writable) s entries = Some s' →
  (figure_id_path <$> st_figures s).*2 = (files (st_eff s)).*1 →
  (figure_id_path <$> st_figures s').*2 = (files (st_eff s')).*1
  ∧ (files (st_eff s')).*2
    ≡ₚ (files (st_eff s)).*2 ++ (entries.*2 ≫= image_bytes).
Proof.
  revert s. induction entries as [|entry entries IH]; intros s.
  - simpl. intros [= <-] Hf. split; [done|]. by rewrite app_nil_r.
  - cbn [for_each].
    destruct (page_iter writable s entry) as [s1|] eqn:E; [|done].
    cbn [mbind option_bind]. intros E' Hf.
    apply page_iter_bytes in E as [H1 H2]; [|done].
    apply IH in E' as [H3 H4]; [|done]. split; [done|].
    rewrite H4, H2, fmap_cons, bind_cons, <-app_assoc. done.
Qed.

(** X14.  When a paginated extraction returns, it has made one figure and
    written once for every embedded image of the document: the content
    path of the i-th figure is the path of the i-th write, and the bytes
    written are, counted with their number of occurrences, the bytes of
    the embedded images. *)
Theorem paginated_figure_per_image (writable : string → bool)
    (doc : list page) (c : Content) (eff : effects) :
  extract_pdf writable doc = Some (c, eff) →
  length (figures (metadata c)) = sum_list (length ∘ get_images <$> doc)
  ∧ length (files eff) = sum_list (length ∘ get_images <$> doc)
  ∧ (figure_id_path <$> figures (metadata c)).*2 = (files eff).*1
  ∧ (files eff).*2 ≡ₚ doc ≫= image_bytes.
Proof.
  unfold extract_pdf. cbv [mbind].
  match goal with |- context [for_each ?f ?s0 ?l] =>
    destruct (for_each f s0 l) as [st|] eqn:E end; [|done].
  simpl. intros [= <- <-]. simpl.
  assert (Hsnd : (imap (λ (i : nat) (page : page), (i + 1, page)) doc).*2 = doc).
  { apply list_eq. intros i. rewrite list_lookup_fmap, list_lookup_imap.
    by destruct (doc !! i). }
  pose proof (pages_counts _ _ _ _ E) as [H1 H2]. simpl in H1, H2.
  apply pages_bytes in E as [H3 H4]; [|done]. simpl in H4.
  rewrite Hsnd in H1, H2, H4. done.
Qed.

Lemma paginated_figure_per_image_witness :
  ∃ c eff,
    extract_pdf read_write [table_page; image_page] = Some (c, eff)
    ∧ length (figures (metadata c)) = 1
    ∧ length (files eff) = 1
    ∧ (figure_id_path <$> figures (metadata c)).*2 = (files eff).*1
    ∧ (files eff).*2 ≡ₚ ["bytes of the image"].
Proof.
  eexists _, _. split; [reflexivity|].
  exact (paginated_figure_per_image read_write [table_page; image_page]
           _ _ eq_refl).
Defined.

End PaginatedResult.

Section Texts.
Import Text Re Docx Outline Samples LatexConverter Formatter Notions.

Lemma take_one (c : ascii) (s : string) :
  str_take (S (String.length s) - String.length s) (String c s)
  = String c "".
Proof.
  replace (S (String.length s) - String.length s) with 1 by lia. done.
Qed.

Lemma one_char_one (p : ascii → bool) : one_char (one p) p.
Proof.
  split; [done|]. intros c s. unfold rmatch, one. cbn [run rep].
  unfold cls_ok. rewrite andb_false_l, orb_false_r. simpl below.
  destruct (p c); simpl; [|done].
  destruct s as [|c' s']; simpl.
  - done.
  - rewrite andb_false_r. simpl.
    pose proof (take_one c (String c' s')) as H. simpl in H.
    by rewrite H.
Qed.

Lemma one_char_comma_semi : one_char re_comma_semi is_separator.
Proof.
  split; [done|]. intros c s. unfold rmatch, re_comma_semi, is_separator.
  cbn [run lit]. unfold chr_eq, is_char.
  pose proof (take_one c s) as H.
  destruct (bool_decide ("," = c)%char) eqn:E1; simpl.
  - by rewrite H.
  - destruct (bool_decide (";" = c)%char) eqn:E2; simpl; [by rewrite H|done].
Qed.

Lemma one_char_kw_sep : one_char re_kw_sep is_separator.
Proof. apply one_char_one. Qed.

(** Pieces of a split hold no separator. *)
Lemma split_pieces (r : regex) (p : ascii → bool) (s : string) :
  one_char r p →
  Forall (λ piece, all_chars (λ c, negb (p c)) piece = true) (split false r s).
Proof.
  intros [_ Hr]. unfold split.
  induction s as [|c s IH]; simpl.
  - by apply Forall_singleton.
  - rewrite Hr. destruct (p c) eqn:Ep; simpl.
    + apply Forall_cons. split; [done|exact IH].
    + destruct (split_go false r 0 s) as [|piece pieces]; simpl.
      * apply Forall_singleton. simpl. by rewrite Ep.
      * apply Forall_cons in IH as [Hp Hps].
        apply Forall_cons. split; [|done]. simpl. by rewrite Ep, Hp.
Qed.

Lemma all_chars_lstrip (q : ascii → bool) (s : string) :
  all_chars q s = true → all_chars q (lstrip s) = true.
Proof.
  induction s as [|c s IH]; simpl; [done|].
  intros [Hc Hs]%andb_true_iff.
  destruct (is_space c); [by apply IH|]. simpl. by rewrite Hc, Hs.
Qed.

Lemma all_chars_rstrip (q : ascii → bool) (s : string) :
  all_chars q s = true → all_chars q (rstrip s) = true.
Proof.
  induction s as [|c s IH]; simpl; [done|].
  intros [Hc Hs]%andb_true_iff.
  destruct (is_space c && is_empty (rstrip s)); [done|]. simpl.
  by rewrite Hc, IH.
Qed.

Lemma all_chars_strip (q : ascii → bool) (s : string) :
  all_chars q s = true → all_chars q (strip s) = true.
Proof. intros H. by apply all_chars_rstrip, all_chars_lstrip. Qed.

Lemma split_keywords_good (text : string) :
  Forall good_keyword (split_keywords text).
Proof.
  unfold split_keywords. apply Forall_forall. intros kw Hin.
  apply list_elem_of_filter in Hin as [Hne Hin].
  apply list_elem_of_fmap in Hin as (piece & -> & Hin).
  split; [done|]. split; [|apply strip_idemp].
  apply all_chars_strip.
  pose proof (split_pieces re_kw_sep is_separator text one_char_kw_sep) as H.
  by eapply Forall_forall in H.
Qed.

Lemma ak_iter_keywords (st : ak_state) (p : paragraph) :
  Forall good_keyword (ak_keywords st) →
  Forall good_keyword (ak_keywords (ak_iter st p).1).
Proof.
  intros Hst. unfold ak_iter.
  repeat match goal with
         | |- context [if ?c then _ else _] => destruct c
         end; simpl; try done.
  apply Forall_app. split; [done|apply split_keywords_good].
Qed.

Lemma ak_at_keywords (budget : nat) (st : ak_state) (p : paragraph) :
  Forall good_keyword (ak_keywords st) →
  Forall good_keyword (ak_keywords (ak_at budget st p).1).
Proof.
  revert st. induction budget as [|budget IH]; intros st Hst; simpl.
  - pose proof (ak_iter_keywords st p Hst) as H.
    by destruct (ak_iter st p) as [st' []].
  - pose proof (ak_iter_keywords st p Hst) as H.
    destruct (ak_iter st p) as [st' []]; try done. by apply IH.
Qed.

Lemma ak_loop_keywords (st : ak_state) (paras : list paragraph) :
  Forall good_keyword (ak_keywords st) →
  Forall good_keyword (ak_keywords (ak_loop st paras).1).
Proof.
  revert st. induction paras as [|p paras IH]; intros st Hst; [done|].
  cbn [ak_loop].
  pose proof (ak_at_keywords 2 st p Hst) as H.
  destruct (ak_at 2 st p) as [st' []]; [by apply IH|done].
Qed.

(** X15.  No keyword of a styled extraction is empty, none holds a comma or
    a semicolon, and each is trimmed. *)
Theorem styled_keywords_clean (writable : string → bool) (doc : document) :
  Forall good_keyword (keywords (metadata (extract_docx writable doc).1)).
Proof.
  unfold extract_docx. cbn [fst metadata keywords]. unfold front_matter.
  destruct (match skip_blank (doc_paragraphs doc) with
            | [] => _ | p :: paras' => _ end) as [title paras1].
  destruct (author_block paras1) as [block paras2].
  pose proof (ak_loop_keywords (AkState false false [] "" []) paras2) as H.
  destruct (ak_loop _ paras2) as [ak paras3]. simpl in *. apply H. constructor.
Qed.

Lemma lookup_pieces (parts : list string) (i : nat) :
  Forall (λ x, all_chars (λ c, negb (is_separator c)) x = true
               ∧ strip x = x) parts →
  all_chars (λ c, negb (is_separator c)) (default "" (parts !! i)) = true
  ∧ strip (default "" (parts !! i)) = default "" (parts !! i).
Proof.
  intros H. destruct (parts !! i) as [x|] eqn:E; simpl; [|done].
  by eapply (Forall_lookup_1 _ parts i x) in H.
Qed.

Lemma author_parts_clean (author_line : string) :
  Forall (λ x, all_chars (λ c, negb (is_separator c)) x = true
               ∧ strip x = x) (author_parts author_line).
Proof.
  unfold author_parts. apply Forall_fmap, Forall_forall. intros piece Hin.
  simpl. split; [|apply strip_idemp]. apply all_chars_strip.
  pose proof (split_pieces re_comma_semi is_separator
                (author_clean author_line) one_char_comma_semi) as H.
  by eapply Forall_forall in H.
Qed.

(** X16.  The name and the role of an author hold no comma and no semicolon,
    and the name is trimmed. *)
Theorem parse_author_name_role (author_line : string) :
  all_chars (λ c, negb (is_separator c)) (name (parse_author author_line)) = true
  ∧ all_chars (λ c, negb (is_separator c)) (role (parse_author author_line)) = true
  ∧ strip (name (parse_author author_line)) = name (parse_author author_line).
Proof.
  pose proof (author_parts_clean author_line) as Hparts.
  unfold parse_author.
  destruct (2 <=? length (author_parts author_line)) eqn:E; cbn [name role].
  - destruct (lookup_pieces _ 0 Hparts) as [H0 H0'].
    destruct (lookup_pieces _ 1 Hparts) as [H1 _].
    split; [done|]. split; [|done]. by destruct (2 <? _).
  - apply Nat.leb_gt in E.
    destruct (author_parts author_line) as [|x [|y l]] eqn:Ep;
      [|clear E|simpl in E; lia].
    { unfold author_parts in Ep. apply fmap_nil_inv in Ep.
      by apply split_go_nonempty in Ep. }
    assert (x = author_clean author_line) as <-.
    { unfold author_parts in Ep.
      destruct (split false re_comma_semi _) as [|z [|z' l]] eqn:Es;
        simplify_eq/=.
      apply split_single in Es. subst z.
      unfold author_clean. apply strip_idemp. }
    apply Forall_singleton in Hparts as [Hx Hx']. done.
Qed.

Import Pdf.

Lemma all_chars_app (q : ascii → bool) (a b : string) :
  all_chars q (a +:+ b) = all_chars q a && all_chars q b.
Proof.
  induction a as [|c a IH]; [done|].
  change (String c a +:+ b) with (String c (a +:+ b)). simpl.
  by rewrite IH, andb_assoc.
Qed.

Lemma sub_one_char (r : regex) (p : ascii → bool) (s : string) :
  one_char r p →
  all_chars (λ c, negb (p c)) (sub false r "" s) = true.
Proof.
  intros [_ Hr]. unfold sub. induction s as [|c s IH]; [done|].
  cbn [sub_go]. rewrite Hr. destruct (p c) eqn:Ep; simpl.
  - exact IH.
  - by rewrite Ep, IH.
Qed.

Lemma replace_space_filename (s : string) :
  all_chars (λ c, negb (negb (filename_char c || is_char " " c))) s = true →
  all_chars filename_char (replace " " "_" s) = true.
Proof.
  induction s as [|c s IH]; [done|]. simpl.
  intros [Hc Hs]%andb_true_iff. rewrite negb_involutive in Hc.
  destruct (bool_decide_reflect (c = " "%char)) as [->|Hne].
  - rewrite all_chars_app. by rewrite IH.
  - simpl. rewrite IH, andb_true_r by done.
    apply orb_true_iff in Hc as [?|Hsp]; [done|].
    unfold is_char in Hsp. apply bool_decide_eq_true in Hsp. by subst.
Qed.

(** X17.  A file name made from a caption of ASCII text is never empty and
    holds only letters, digits, underscores, hyphens and dots: no path
    separator and no space. *)
Theorem sanitize_filename_safe (text : string) :
  ascii_text text = true →
  sanitize_filename text ≠ ""
  ∧ all_chars filename_char (sanitize_filename text) = true.
Proof.
  intros _. unfold sanitize_filename.
  set (caption_text := strip (lower _)).
  destruct (is_empty _) eqn:E; [done|].
  split; [by intros H; rewrite H in E|].
  apply replace_space_filename.
  exact (sub_one_char re_unsafe _ caption_text (one_char_one _)).
Qed.

Lemma sanitize_filename_safe_witness :
  sanitize_filename "Fig 2: Flow / Chart (v1)" = "flow__chart_v1"
  ∧ sanitize_filename "Fig 2: Flow / Chart (v1)" ≠ ""
  ∧ all_chars filename_char (sanitize_filename "Fig 2: Flow / Chart (v1)")
    = true.
Proof.
  split; [reflexivity|].
  exact (sanitize_filename_safe "Fig 2: Flow / Chart (v1)" eq_refl).
Defined.

Lemma drop_while_length (p : ascii → bool) (s : string) :
  String.length (drop_while p s) + span p s = String.length s.
Proof.
  induction s as [|c s IH]; [done|]. simpl.
  destruct (p c); simpl; lia.
Qed.

Lemma str_take_length (n : nat) (s : string) :
  n ≤ String.length s → String.length (str_take n s) = n.
Proof.
  revert n. induction s as [|c s IH]; intros [|n] H; simpl in *; try done; try lia.
  rewrite IH; [done|lia].
Qed.

(** A greedy repetition followed by nothing that can fail takes the whole
    run. *)
Lemma rep_greedy {A} (p : ascii → bool) (lo n : nat) (s : string)
    (k : string → option A) :
  (∀ x, is_Some (k x)) →
  rep false p lo None n s k
  = if lo <=? n + span p s then k (drop_while p s) else None.
Proof.
  intros Hk. revert n. induction s as [|c s IH]; intros n; simpl.
  - by rewrite Nat.add_0_r.
  - unfold cls_ok. rewrite andb_false_l, orb_false_r, andb_true_r.
    destruct (p c).
    + rewrite IH. replace (n + S (span p s)) with (S n + span p s) by lia.
      destruct (lo <=? S n + span p s) eqn:E.
      * by destruct (Hk (drop_while p s)) as [y ->].
      * apply Nat.leb_gt in E.
        destruct (lo <=? n) eqn:E'; [|done]. apply Nat.leb_le in E'. lia.
    + by rewrite Nat.add_0_r.
Qed.

Lemma rmatch_plus_length (p : ascii → bool) (s : string) :
  String.length <$> (group0 <$> rmatch false (plus p) s)
  = if 1 <=? span p s then Some (span p s) else None.
Proof.
  unfold rmatch, plus. cbn [run]. rewrite rep_greedy by (by intros x; eexists).
  rewrite Nat.add_0_l. destruct (1 <=? span p s); [|done].
  cbn [fmap option_fmap option_map group0]. f_equal.
  pose proof (drop_while_length p s). rewrite str_take_length; lia.
Qed.

Lemma sub_spaces_cons (c : ascii) (s : string) :
  sub_go false (plus is_space) " " 0 (String c s)
  = if is_space c
    then " " +:+ sub_go false (plus is_space) " " (span is_space s) s
    else String c (sub_go false (plus is_space) " " 0 s).
Proof.
  cbn [sub_go]. rewrite rmatch_plus_length. simpl.
  by destruct (is_space c).
Qed.

Lemma sub_spaces_spaced (s : string) :
  spaced false (sub_go false (plus is_space) " " 0 s) = true
  ∧ spaced true (sub_go false (plus is_space) " " (span is_space s) s) = true.
Proof.
  induction s as [|c s [IH0 IH1]]; [done|].
  rewrite sub_spaces_cons. cbn [span].
  destruct (is_space c) eqn:Ec.
  - split; [|exact IH1].
    change (" " +:+ ?x) with (String " " x). simpl. exact IH1.
  - rewrite sub_spaces_cons, Ec. simpl. by rewrite Ec.
Qed.

Lemma spaced_lstrip (b : bool) (s : string) :
  spaced b s = true → spaced true (lstrip s) = true.
Proof.
  revert b. induction s as [|c s IH]; intros b; simpl; [done|].
  destruct (is_space c) eqn:Ec.
  - intros [_ H]%andb_true_iff. by apply (IH true).
  - intros H. simpl. by rewrite Ec.
Qed.

Lemma spaced_rstrip (b : bool) (s : string) :
  spaced b s = true → spaced b (rstrip s) = true.
Proof.
  revert b. induction s as [|c s IH]; intros b; simpl; [done|].
  destruct (is_space c) eqn:Ec; simpl.
  - intros [Hc H]%andb_true_iff.
    destruct (is_empty (rstrip s)); [done|]. simpl.
    by rewrite Ec, Hc, (IH true).
  - intros H. simpl. rewrite Ec. by apply IH.
Qed.

Lemma spaced_true_lstrip (s : string) : spaced true s = true → lstrip s = s.
Proof.
  destruct s as [|c s]; [done|]. simpl. destruct (is_space c); [|done].
  rewrite andb_false_r. done.
Qed.

Lemma spaced_sub (b : bool) (s : string) :
  spaced b s = true → sub_go false (plus is_space) " " 0 s = s.
Proof.
  revert b. induction s as [|c s IH]; intros b; [done|].
  rewrite sub_spaces_cons. simpl.
  destruct (is_space c) eqn:Ec.
  - intros [[Hc _]%andb_true_iff Hs]%andb_true_iff.
    unfold is_char in Hc. apply bool_decide_eq_true in Hc as <-.
    assert (span is_space s = 0) as ->.
    { destruct s as [|c' s']; [done|]. simpl in *.
      destruct (is_space c'); [|done]. by rewrite andb_false_r in Hs. }
    by rewrite (IH true).
  - intros H. by rewrite (IH false).
Qed.

(** X18.  For ASCII text, where the model's white space is Python's: a
    cleaned text is trimmed, its only white space is the space
    character and no two spaces follow each other; cleaning it again
    changes nothing. *)
Theorem clean_text_normal (text : string) :
  ascii_text text = true →
  spaced true (clean_text text) = true
  ∧ strip (clean_text text) = clean_text text
  ∧ clean_text (clean_text text) = clean_text text.
Proof.
  intros _.
  assert (Hs : spaced true (clean_text text) = true).
  { unfold clean_text, strip, sub.
    destruct (sub_spaces_spaced text) as [H _].
    by apply spaced_rstrip, (spaced_lstrip false). }
  assert (Ht : strip (clean_text text) = clean_text text).
  { unfold clean_text. apply strip_idemp. }
  split; [done|]. split; [done|].
  unfold clean_text at 1. unfold sub. by rewrite (spaced_sub true).
Qed.

Lemma clean_text_normal_witness :
  clean_text "  Deep   learning   " = "Deep learning"
  ∧ spaced true (clean_text "  Deep   learning   ") = true
  ∧ strip (clean_text "  Deep   learning   ")
    = clean_text "  Deep   learning   "
  ∧ clean_text (clean_text "  Deep   learning   ")
    = clean_text "  Deep   learning   ".
Proof.
  split; [reflexivity|].
  exact (clean_text_normal "  Deep   learning   " eq_refl).
Defined.

Lemma lstrip_empty (s : string) :
  lstrip s = "" ↔ all_chars is_space s = true.
Proof.
  induction s as [|c s IH]; simpl; [done|].
  destruct (is_space c); simpl; [done|]. split; done.
Qed.

Lemma rstrip_empty (s : string) : rstrip s = "" → lstrip s = "".
Proof.
  induction s as [|c s IH]; simpl; [done|].
  destruct (is_space c); simpl; [|done].
  destruct (rstrip s); simpl; [|done]. intros _. by apply IH.
Qed.

Lemma strip_empty (s : string) :
  strip s = "" ↔ all_chars is_space s = true.
Proof.
  unfold strip. rewrite <-lstrip_empty. split.
  - intros H%rstrip_empty. pose proof (lstrip_head s) as Hh.
    destruct (lstrip s) as [|c t]; [done|]. simpl in H. by rewrite Hh in H.
  - by intros ->.
Qed.

Lemma sub_spaces_blank (s : string) (k : nat) :
  k ≤ span is_space s →
  all_chars is_space (sub_go false (plus is_space) " " k s) = true →
  all_chars is_space s = true.
Proof.
  revert k. induction s as [|c s IH]; intros k Hk; [done|].
  destruct k as [|k].
  - rewrite sub_spaces_cons. simpl. destruct (is_space c) eqn:Ec.
    + change (" " +:+ ?x) with (String " " x). simpl. by apply IH.
    + simpl. by rewrite Ec.
  - simpl in *. destruct (is_space c); [|lia]. simpl. apply IH. lia.
Qed.

Lemma clean_text_empty (text : string) :
  clean_text text = "" ↔ strip text = "".
Proof.
  split.
  - unfold clean_text. rewrite !strip_empty. unfold sub.
    apply sub_spaces_blank. lia.
  - intros H. apply strip_empty in H.
    unfold clean_text. apply strip_empty. unfold sub.
    revert H. generalize 0 at 1.
    induction text as [|c text IH]; intros k; [done|]. simpl.
    intros [Hc Ht]%andb_true_iff.
    destruct k as [|k]; [|by apply IH].
    rewrite rmatch_plus_length. simpl. rewrite Hc. simpl.
    change (" " +:+ ?x) with (String " " x). simpl. by apply IH.
Qed.

Lemma skip_blank_nil (paras : list paragraph) :
  skip_blank paras = [] ↔ Forall (λ p, strip (text p) = "") paras.
Proof.
  induction paras as [|p paras IH]; simpl; [done|].
  destruct (strip (text p)) eqn:E; simpl.
  - rewrite IH. split; [by intros ?; apply Forall_cons|].
    by intros [_ ?]%Forall_cons.
  - split; [done|]. intros [H _]%Forall_cons. by rewrite E in H.
Qed.

Lemma skip_blank_head (paras : list paragraph) (p : paragraph)
    (others : list paragraph) :
  skip_blank paras = p :: others → strip (text p) ≠ "".
Proof.
  induction paras as [|q paras IH]; simpl; [done|].
  destruct (strip (text q)) eqn:E; simpl; [done|].
  intros [= <- _]. by rewrite E.
Qed.

(** X19.  For paragraphs of ASCII text, the title is empty exactly when
    every paragraph of the document is blank. *)
Theorem title_empty_iff_blank (writable : string → bool) (doc : document) :
  ascii_paragraphs (doc_paragraphs doc) = true →
  title (metadata (extract_docx writable doc).1) = ""
  ↔ Forall (λ p, strip (text p) = "") (doc_paragraphs doc).
Proof.
  intros _. unfold extract_docx. cbn [fst metadata title]. unfold front_matter.
  rewrite <-skip_blank_nil.
  destruct (skip_blank (doc_paragraphs doc)) as [|p others] eqn:E.
  - destruct (author_block []) as [block paras2].
    by destruct (ak_loop _ paras2) as [ak paras3].
  - destruct (author_block others) as [block paras2].
    destruct (ak_loop _ paras2) as [ak paras3]. simpl.
    apply skip_blank_head in E. rewrite clean_text_empty. done.
Qed.

Lemma title_empty_iff_blank_witness :
  title (metadata (extract_docx read_write blank_pages).1) = ""
  ∧ (title (metadata (extract_docx read_write blank_pages).1) = ""
     ↔ Forall (λ p, strip (text p) = "") (doc_paragraphs blank_pages)).
Proof.
  split; [reflexivity|].
  exact (title_empty_iff_blank read_write blank_pages eq_refl).
Defined.

End Texts.

(** ** Author lines *)

Section AuthorLines.
Import Text Re Docx Outline Samples LatexConverter Formatter Notions.

(** *** What a match of the e-mail pattern is *)










(** *** Where the e-mail pattern matches *)

















Lemma address_nonempty (e : string) : is_address e → e ≠ "".
Proof.
  intros (local & dom & tld & -> & Hl & _). by destruct local.
Qed.





End AuthorLines.
